(** * SCIServer: the connection lifecycle of LibSCI's server

    A shallow embedding of [src/LibSCI/Source/SCI/Server/SCIServer.cpp]:
    the listening endpoint, the registry of worker handles
    ([mProcessList]), the self-replicating acceptor ([Proc] calling
    [createNewProcess]) and the shutdown path ([Disconnect]).

    The member functions of [SCIServer::Impl] become computations in a
    state monad over a [World]: the two fields of [Impl], the objects
    allocated with [new], the socket handles the operating system holds
    open, and the sequence of observable calls made so far.  Everything
    the code obtains from outside (the results of [socket], [bind],
    [listen], [accept], [recv], whether a fresh thread is joinable, what
    the other threads do to the registry while this one sleeps) is an
    explicit argument. *)

From stdpp Require Import gmap list strings.

Local Open Scope Z_scope.

(** ** Handles, addresses and constants *)

(** [SOCKET] is winsock's [UINT_PTR]; [INVALID_SOCKET] is [(SOCKET)(~0)]. *)
Definition SOCKET := Z.
Definition INVALID_SOCKET : SOCKET := Z.ones 64.

(** Addresses of objects allocated with [new]. *)
Definition loc := positive.

(** [static const size_t MAX_CLIENT_NUM = 8;] *)
Definition MAX_CLIENT_NUM : nat := 8.
(** [static const long long INTERVAL_OF_TIME_MILLISECONDS = 1000;] *)
Definition INTERVAL_OF_TIME_MILLISECONDS : Z := 1000.

(** ** The packet layout

    [SCI/System/SCIPacket.h] is not part of the sources at hand, so what
    [SCIServer.cpp] uses from it is an interface: the two enumerators the
    [switch] in [Proc] names, the index of the kind byte in the header,
    and the sizes of the two arrays of [RawData].  The side conditions are
    what the C++ needs to compile and to stay inside its buffers: distinct
    [case] labels, an index inside [mHeader], and a [RawData] no larger
    than the 1024-byte receive buffer it is copied from. *)
Class SCIPacket := {
  DISCONNECT : Z;
  MESSAGE : Z;
  RAWDATA_HEADER_INDEX : nat;
  RAWDATA_HEADER_SIZE : nat;
  RAWDATA_BODY_SIZE : nat;
  case_labels_distinct : DISCONNECT ≠ MESSAGE;
  header_index_in_header : (RAWDATA_HEADER_INDEX < RAWDATA_HEADER_SIZE)%nat;
  rawdata_fits_buffer : (RAWDATA_HEADER_SIZE + RAWDATA_BODY_SIZE ≤ 1024)%nat
}.

(** ** Objects *)

(** [struct Process]: [mThread] is value-initialised (null) by the
    constructor and set by [SetThread]. *)
Record Process := mkProcess {
  mThread : option loc;
  mIntervalTime : Z
}.

(** A [std::thread] object: the [Process*] its routine [Proc] was started
    with, and what [joinable()] answers. *)
Record Thread := mkThread {
  thread_arg : loc;
  thread_joinable : bool
}.

(** ** Observable calls *)

Inductive LogLine :=
| LogSocketFailure          (* ut::error("socket failure. (%d)\n") *)
| LogBindError              (* ut::error("socket bind error. (%d)\n") *)
| LogListenError            (* ut::error("socket listen error. (%d)\n") *)
| LogWaitConnection         (* "wait connection. please start client.\n" *)
| LogConnectionAccepted     (* "connection accepted.\n" *)
| LogHello                  (* "hello, %s.\n" *)
| LogDataReceived           (* "data received.\n" *)
| LogGoodbye                (* "goodbye, %s.\n" *)
| LogBody (body : list Z)   (* "%s\n", rawData.mBody *)
| LogDisconnectedClient.    (* "disconnected client.\n" *)

Inductive Event :=
| EvLog (line : LogLine)
| EvSocket (result : SOCKET)
| EvBind (s : SOCKET) (port : Z) (address : string) (result : Z)
| EvListen (s : SOCKET) (backlog : Z) (result : Z)
| EvAccept (s : SOCKET) (result : SOCKET)
| EvSend (s : SOCKET) (kind : Z)
| EvRecv (s : SOCKET) (result : Z)
| EvCloseSocket (s : SOCKET)
| EvSleep (milliseconds : Z)
| EvThreadStart (process : loc).

Global Instance LogLine_eq_dec : EqDecision LogLine.
Proof. solve_decision. Defined.
Global Instance Event_eq_dec : EqDecision Event.
Proof. solve_decision. Defined.

(** ** The state *)

Record World := mkWorld {
  mSocket : SOCKET;                (* Impl::mSocket *)
  mProcessList : list loc;         (* Impl::mProcessList *)
  processes : gmap loc Process;    (* live Process objects *)
  threads : gmap loc Thread;       (* live std::thread objects *)
  open_sockets : gset SOCKET;      (* handles the system holds open *)
  trace : list Event               (* calls made so far, oldest first *)
}.

(** [SCIServer::Impl::Impl()] in a process that owns nothing yet. *)
Definition Impl : World :=
  mkWorld INVALID_SOCKET [] ∅ ∅ ∅ [].

(** ** The monad

    [None] is undefined behaviour: a member access through a pointer to
    an object that is no longer alive. *)
Definition M (A : Type) : Type := World → option (A * World).

Definition ret {A} (a : A) : M A := λ w, Some (a, w).

Definition and_then {A B} (c : M A) (k : A → M B) : M B :=
  λ w, match c w with
       | Some (a, w') => k a w'
       | None => None
       end.

Declare Scope M_scope.
Delimit Scope M_scope with M.
Notation "x <- c ;; k" := (and_then c (λ x, k))
  (at level 100, c at next level, right associativity) : M_scope.
Notation "c ;; k" := (and_then c (λ _, k))
  (at level 100, right associativity) : M_scope.
Local Open Scope M_scope.

Definition modify (f : World → World) : M unit := λ w, Some (tt, f w).

Definition emit (e : Event) : M unit :=
  modify (λ w, mkWorld (mSocket w) (mProcessList w) (processes w) (threads w)
                       (open_sockets w) (trace w ++ [e])).

Definition set_mSocket (s : SOCKET) : M unit :=
  modify (λ w, mkWorld s (mProcessList w) (processes w) (threads w)
                       (open_sockets w) (trace w)).

Definition set_mProcessList (l : list loc) : M unit :=
  modify (λ w, mkWorld (mSocket w) l (processes w) (threads w)
                       (open_sockets w) (trace w)).

Definition set_processes (h : gmap loc Process) : M unit :=
  modify (λ w, mkWorld (mSocket w) (mProcessList w) h (threads w)
                       (open_sockets w) (trace w)).

Definition set_threads (h : gmap loc Thread) : M unit :=
  modify (λ w, mkWorld (mSocket w) (mProcessList w) (processes w) h
                       (open_sockets w) (trace w)).

Definition set_open_sockets (o : gset SOCKET) : M unit :=
  modify (λ w, mkWorld (mSocket w) (mProcessList w) (processes w) (threads w)
                       o (trace w)).

Definition get {A} (f : World → A) : M A := λ w, Some (f w, w).

Definition undefined {A} : M A := λ _, None.

(** ** Logging *)

Definition logging (line : LogLine) : M unit := emit (EvLog line).

(** ** Objects on the heap *)

(** [new Process(intervalTime)] *)
Definition new_Process (intervalTime : Z) : M loc :=
  h <- get processes ;;
  let p := fresh (dom h) in
  set_processes (<[p := mkProcess None intervalTime]> h) ;;
  ret p.

(** [new std::thread(&SCIServer::Impl::Proc, this, process)]: when the
    thread came into being it runs [Proc(process)] from now on. *)
Definition new_thread (process : loc) (joinable : bool) : M loc :=
  h <- get threads ;;
  let t := fresh (dom h) in
  set_threads (<[t := mkThread process joinable]> h) ;;
  (if joinable then emit (EvThreadStart process) else ret tt) ;;
  ret t.

(** [process->SetThread(thread)] *)
Definition SetThread (process thread : loc) : M unit :=
  h <- get processes ;;
  match h !! process with
  | Some pr => set_processes (<[process := mkProcess (Some thread) (mIntervalTime pr)]> h)
  | None => undefined
  end.

(** [process->GetThread()] *)
Definition GetThread (process : loc) : M (option loc) :=
  h <- get processes ;;
  match h !! process with
  | Some pr => ret (mThread pr)
  | None => undefined
  end.

(** [process->GetIntervalTime()] *)
Definition GetIntervalTime (process : loc) : M Z :=
  h <- get processes ;;
  match h !! process with
  | Some pr => ret (mIntervalTime pr)
  | None => undefined
  end.

(** [thread->joinable()] *)
Definition joinable (thread : loc) : M bool :=
  h <- get threads ;;
  match h !! thread with
  | Some th => ret (thread_joinable th)
  | None => undefined
  end.

(** [thread->detach()] *)
Definition detach (thread : loc) : M unit :=
  h <- get threads ;;
  match h !! thread with
  | Some th => set_threads (<[thread := mkThread (thread_arg th) false]> h)
  | None => undefined
  end.

(** [delete thread;] for a [std::thread*]; deleting null does nothing. *)
Definition delete_thread (thread : option loc) : M unit :=
  match thread with
  | None => ret tt
  | Some t =>
      h <- get threads ;;
      match h !! t with
      | Some _ => set_threads (delete t h)
      | None => undefined
      end
  end.

(** [delete process;] *)
Definition delete_process (process : loc) : M unit :=
  h <- get processes ;;
  match h !! process with
  | Some _ => set_processes (delete process h)
  | None => undefined
  end.

(** [mProcessList.push_back(process)] *)
Definition push_back (process : loc) : M unit :=
  l <- get mProcessList ;;
  set_mProcessList (l ++ [process]).

(** ** createNewProcess *)

Definition createNewProcess (thread_is_joinable : bool) : M bool :=
  process <- new_Process INTERVAL_OF_TIME_MILLISECONDS ;;
  thread <- new_thread process thread_is_joinable ;;
  SetThread process thread ;;
  j <- joinable thread ;;
  if negb j then
    delete_thread (Some thread) ;;
    delete_process process ;;
    ret false
  else
    detach thread ;;
    push_back process ;;
    ret true.

(** ** The transport

    The winsock calls are taken as given: each one records that it was
    made, keeps the table of open handles up to date, and returns the
    result the system chose. *)

(** [socket(PF_INET, SOCK_STREAM, 0)] *)
Definition socket (result : SOCKET) : M SOCKET :=
  emit (EvSocket result) ;;
  o <- get open_sockets ;;
  (if decide (result = INVALID_SOCKET) then ret tt
   else set_open_sockets ({[result]} ∪ o)) ;;
  ret result.

(** [bind(s, &addr, sizeof(addr))] *)
Definition bind (s : SOCKET) (port : Z) (address : string) (result : Z) : M Z :=
  emit (EvBind s port address result) ;;
  ret result.

(** [listen(s, backlog)] *)
Definition listen (s : SOCKET) (backlog : Z) (result : Z) : M Z :=
  emit (EvListen s backlog result) ;;
  ret result.

(** [accept(s, &addr, &len)] *)
Definition accept (s : SOCKET) (result : SOCKET) : M SOCKET :=
  emit (EvAccept s result) ;;
  o <- get open_sockets ;;
  (if decide (result = INVALID_SOCKET) then ret tt
   else set_open_sockets ({[result]} ∪ o)) ;;
  ret result.

(** [closesocket(s)] *)
Definition closesocket (s : SOCKET) : M unit :=
  emit (EvCloseSocket s) ;;
  o <- get open_sockets ;;
  set_open_sockets (o ∖ {[s]}).

(** [std::this_thread::sleep_for(std::chrono::milliseconds(ms))] *)
Definition sleep_for (milliseconds : Z) : M unit :=
  emit (EvSleep milliseconds).

(** [char buffer[1024]]: the byte at each index. *)
Definition Buffer := nat → Z.

(** What one call of [recv] meets: the bytes the local array holds before
    the call (it is not initialised), and the bytes that arrive, if the
    call does not fail. *)
Record Receive := mkReceive {
  uninitialised : Buffer;
  arriving : option (list Z)
}.

(** [recv] stores the bytes that arrived at the front of the buffer and
    leaves the rest of it alone. *)
Definition store (data : list Z) (buffer : Buffer) : Buffer :=
  λ i, match data !! i with
       | Some b => b
       | None => buffer i
       end.

(** [recv(s, buffer, sizeof(buffer), 0)]: at most 1024 bytes are taken;
    a failed call returns [SOCKET_ERROR]. *)
Definition recv (s : SOCKET) (r : Receive) : M (Z * Buffer) :=
  match arriving r with
  | None =>
      emit (EvRecv s (-1)) ;;
      ret (-1, uninitialised r)
  | Some data =>
      let data := take 1024 data in
      emit (EvRecv s (Z.of_nat (length data))) ;;
      ret (Z.of_nat (length data), store data (uninitialised r))
  end.

Section Server.
Context `{SCIPacket}.

(** [sys::SCIPacket::RawData]: the header array followed by the body array. *)
Record RawData := mkRawData {
  mHeader : list Z;
  mBody : list Z
}.

(** [sizeof(sys::SCIPacket::RawData)] *)
Definition sizeof_RawData : nat := (RAWDATA_HEADER_SIZE + RAWDATA_BODY_SIZE)%nat.

(** [memcpy(&rawData, buffer, sizeof(sys::SCIPacket::RawData))] *)
Definition memcpy_RawData (buffer : Buffer) : RawData :=
  mkRawData (buffer <$> seq 0 RAWDATA_HEADER_SIZE)
            (buffer <$> seq RAWDATA_HEADER_SIZE RAWDATA_BODY_SIZE).

(** [rawData.mHeader[sys::SCIPacket::RAWDATA_HEADER_INDEX]] *)
Definition kind_of (rawData : RawData) : Z :=
  default 0 (mHeader rawData !! RAWDATA_HEADER_INDEX).

(** Modelled from the spec: [sys::SCIPacketSender::send], the base class
    of [Impl], is declared in the missing [SCIPacket.h]; it sends one
    frame of the given kind on the socket its argument points to. *)
Definition send (s : SOCKET) (kind : Z) : M unit :=
  emit (EvSend s kind).

(** ** Connect *)

(** What [Connect] gets from outside. [others k] is what the other
    threads do to the registry while this one sleeps for the [k]-th time. *)
Record ConnectEnv := mkConnectEnv {
  socket_result : SOCKET;
  bind_result : Z;
  listen_result : Z;
  first_joinable : bool;
  others : nat → list loc → list loc
}.

(** [while (!mProcessList.empty()) sleep_for(milliseconds(1000));]
    The result says whether the loop was left before the fuel ran out. *)
Fixpoint wait_for_threads (others : nat → list loc → list loc)
    (k fuel : nat) : M bool :=
  match fuel with
  | O => ret false
  | S fuel =>
      l <- get mProcessList ;;
      match l with
      | [] => ret true
      | _ :: _ =>
          sleep_for 1000 ;;
          set_mProcessList (others k l) ;;
          wait_for_threads others (S k) fuel
      end
  end.

(** [bool SCIServer::Impl::Connect(const int port, const char* address)];
    [Some b] when it returns [b], [None] while it is still waiting. *)
Definition Connect (port : Z) (address : string) (env : ConnectEnv) (fuel : nat) :
    M (option bool) :=
  s <- socket (socket_result env) ;;
  set_mSocket s ;;
  if decide (s = INVALID_SOCKET) then
    logging LogSocketFailure ;;
    ret (Some false)
  else
    error <- bind s port address (bind_result env) ;;
    if negb (error =? 0) then
      logging LogBindError ;;
      closesocket s ;;
      set_mSocket INVALID_SOCKET ;;
      ret (Some false)
    else
      error <- listen s 1 (listen_result env) ;;
      if negb (error =? 0) then
        logging LogListenError ;;
        closesocket s ;;
        set_mSocket INVALID_SOCKET ;;
        ret (Some false)
      else
        createNewProcess (first_joinable env) ;;
        finished <- wait_for_threads (others env) 0 fuel ;;
        ret (if finished then Some true else None).

(** ** Disconnect *)

(** The body of [for each(auto process in mProcessList)]. *)
Definition release (process : loc) : M unit :=
  thread <- GetThread process ;;
  delete_thread thread ;;
  delete_process process.

Fixpoint for_each (l : list loc) (body : loc → M unit) : M unit :=
  match l with
  | [] => ret tt
  | process :: l => body process ;; for_each l body
  end.

(** [bool SCIServer::Impl::Disconnect()] *)
Definition Disconnect : M bool :=
  s <- get mSocket ;;
  if decide (s = INVALID_SOCKET) then
    ret false
  else
    send s DISCONNECT ;;
    closesocket s ;;
    l <- get mProcessList ;;
    for_each l release ;;
    set_mProcessList [] ;;
    ret true.

(** ** Proc *)

(** The loop over [mProcessList] that erases the first [*it == process]
    and breaks. *)
Fixpoint erase_first (process : loc) (l : list loc) : list loc :=
  match l with
  | [] => []
  | p :: l => if decide (p = process) then l else p :: erase_first process l
  end.

(** The [switch] on the kind byte; the result is the new [connected]. *)
Definition dispatch (sockclient : SOCKET) (rawData : RawData) : M bool :=
  let kind := kind_of rawData in
  if decide (kind = DISCONNECT) then
    logging LogGoodbye ;;
    ret false
  else if decide (kind = MESSAGE) then
    logging (LogBody (mBody rawData)) ;;
    send sockclient DISCONNECT ;;
    ret true
  else
    ret true.

(** One turn of [while (connected)]; the result is the new [connected]. *)
Definition iteration (process : loc) (sockclient : SOCKET) (r : Receive) : M bool :=
  send sockclient DISCONNECT ;;
  received <- recv sockclient r ;;
  connected <-
    (if 0 <? received.1 then
       logging LogDataReceived ;;
       dispatch sockclient (memcpy_RawData received.2)
     else ret true) ;;
  interval <- GetIntervalTime process ;;
  sleep_for interval ;;
  ret connected.

(** [while (connected) { ... }] against the receives still to come; the
    result is [true] when they ran out with the loop still going. *)
Fixpoint receive_loop (process : loc) (sockclient : SOCKET)
    (receives : list Receive) : M bool :=
  match receives with
  | [] => ret true
  | r :: receives =>
      connected <- iteration process sockclient r ;;
      if connected then receive_loop process sockclient receives
      else ret false
  end.

(** What follows the loop. *)
Definition close_connection (process : loc) (sockclient : SOCKET) : M unit :=
  closesocket sockclient ;;
  l <- get mProcessList ;;
  set_mProcessList (erase_first process l) ;;
  logging LogDisconnectedClient.

(** What [Proc] gets from outside: the result of [accept], whether the
    thread of the next acceptor is joinable, and what the receives of the
    turns to come meet. *)
Record ProcEnv := mkProcEnv {
  accept_result : SOCKET;
  next_joinable : bool;
  receives : list Receive
}.

(** Where a unit running [Proc] stands when its receives ran out. *)
Inductive Outcome := Serving | Returned.

(** [void SCIServer::Impl::Proc(Process* process)] *)
Definition Proc (process : loc) (env : ProcEnv) : M Outcome :=
  logging LogWaitConnection ;;
  s <- get mSocket ;;
  sockclient <- accept s (accept_result env) ;;
  logging LogConnectionAccepted ;;
  logging LogHello ;;
  createNewProcess (next_joinable env) ;;
  connected <- receive_loop process sockclient (receives env) ;;
  if connected then ret Serving
  else close_connection process sockclient ;; ret Returned.

(** [SCIServer::Start] and [SCIServer::End] *)
Definition Start (port : Z) (address : string) (env : ConnectEnv) (fuel : nat) :
    M (option bool) :=
  Connect port address env fuel.

Definition End : M bool := Disconnect.

End Server.

(** ** Vocabulary of the statements *)

(** The world after further calls were recorded. *)
Definition record (evs : list Event) (w : World) : World :=
  mkWorld (mSocket w) (mProcessList w) (processes w) (threads w)
          (open_sockets w) (trace w ++ evs).

(** [n] calls of [createNewProcess] in a row, every thread joinable. *)
Fixpoint spawn (n : nat) : M unit :=
  match n with
  | O => ret tt
  | S n => createNewProcess true ;; spawn n
  end.

(** [socket], [bind] and [listen] all succeed. *)
Definition setup_succeeds (env : ConnectEnv) : bool :=
  negb (bool_decide (socket_result env = INVALID_SOCKET))
  && (bind_result env =? 0) && (listen_result env =? 0).

(** The registry as [Connect] finds it when it tests the loop condition
    for the [j]-th time after the first, starting from [l] with the
    [k]-th sleep next. *)
Fixpoint observed (others : nat → list loc → list loc)
    (k : nat) (l : list loc) (j : nat) : list loc :=
  match j with
  | O => l
  | S j => observed others (S k) (others k l) j
  end.

(** The registry right after the first [createNewProcess] of [Connect]. *)
Definition first_registry (env : ConnectEnv) (w : World) : list loc :=
  if first_joinable env then mProcessList w ++ [fresh (dom (processes w))]
  else mProcessList w.

(** The calls [Connect] makes until the transport is set up. *)
Definition setup_calls (port : Z) (address : string) (env : ConnectEnv) : list Event :=
  [EvSocket (socket_result env);
   EvBind (socket_result env) port address 0;
   EvListen (socket_result env) 1 0].

(** The world in which [Proc] reaches its [createNewProcess]: [accept]
    returned [s], and the three lines were logged. *)
Definition accepted (s : SOCKET) (w : World) : World :=
  mkWorld (mSocket w) (mProcessList w) (processes w) (threads w)
          (if decide (s = INVALID_SOCKET) then open_sockets w
           else {[s]} ∪ open_sockets w)
          (trace w ++ [EvLog LogWaitConnection; EvAccept (mSocket w) s;
                       EvLog LogConnectionAccepted; EvLog LogHello]).

(** A server that listens on handle 5 with one acceptor registered:
    process 1, run by thread 1. *)
Definition listening_world : World :=
  mkWorld 5 [1%positive]
          {[1%positive := mkProcess (Some 1%positive) INTERVAL_OF_TIME_MILLISECONDS]}
          {[1%positive := mkThread 1%positive false]}
          {[5]} [].

(** A receive that delivers the given bytes into a zeroed buffer. *)
Definition delivers (data : list Z) : Receive :=
  mkReceive (λ _, 0) (Some data).

(** The world in which [Connect] reaches its [createNewProcess]. *)
Definition listening (port : Z) (address : string) (env : ConnectEnv) (w : World) : World :=
  mkWorld (socket_result env) (mProcessList w) (processes w) (threads w)
          ({[socket_result env]} ∪ open_sockets w)
          (trace w ++ setup_calls port address env).

(** The calls of a [Connect] that gives up, by the step that failed. *)
Definition failure_calls (port : Z) (address : string) (env : ConnectEnv) : list Event :=
  let s := socket_result env in
  if decide (s = INVALID_SOCKET) then
    [EvSocket s; EvLog LogSocketFailure]
  else if negb (bind_result env =? 0) then
    [EvSocket s; EvBind s port address (bind_result env); EvLog LogBindError;
     EvCloseSocket s]
  else
    [EvSocket s; EvBind s port address 0; EvListen s 1 (listen_result env);
     EvLog LogListenError; EvCloseSocket s].

(** Calls of [socket], [bind] and [listen]. *)
Definition is_setup_call (e : Event) : bool :=
  match e with
  | EvSocket _ | EvBind _ _ _ _ | EvListen _ _ _ => true
  | _ => false
  end.

(** What [recv] returns and what it leaves in the buffer. *)
Definition received_count (r : Receive) : Z :=
  match arriving r with
  | None => -1
  | Some data => Z.of_nat (length (take 1024 data))
  end.

Definition received_buffer (r : Receive) : Buffer :=
  match arriving r with
  | None => uninitialised r
  | Some data => store (take 1024 data) (uninitialised r)
  end.

(** Calls that belong to serving the connection [s]. *)
Definition on_connection (s : SOCKET) (e : Event) : bool :=
  match e with
  | EvSend s' _ | EvRecv s' _ | EvCloseSocket s' => bool_decide (s' = s)
  | EvLog _ | EvSleep _ => true
  | _ => false
  end.

Section Vocabulary.
Context `{SCIPacket}.

(** The frame one turn of the loop hands to its [switch], if any. *)
Definition handed_to_switch (r : Receive) : option RawData :=
  if 0 <? received_count r then Some (memcpy_RawData (received_buffer r))
  else None.

(** What the [switch] does with a frame. *)
Definition dispatch_calls (s : SOCKET) (rawData : RawData) : list Event :=
  if decide (kind_of rawData = DISCONNECT) then [EvLog LogGoodbye]
  else if decide (kind_of rawData = MESSAGE) then
    [EvLog (LogBody (mBody rawData)); EvSend s DISCONNECT]
  else [].

Definition stays_connected (rawData : RawData) : bool :=
  if decide (kind_of rawData = DISCONNECT) then false else true.

(** What one turn of the loop does with a receive. *)
Definition turn_calls (s : SOCKET) (interval : Z) (r : Receive) : list Event :=
  [EvSend s DISCONNECT; EvRecv s (received_count r)]
  ++ match handed_to_switch r with
     | Some rawData => EvLog LogDataReceived :: dispatch_calls s rawData
     | None => []
     end
  ++ [EvSleep interval].

Definition turn_connected (r : Receive) : bool :=
  match handed_to_switch r with
  | Some rawData => stays_connected rawData
  | None => true
  end.

(** The receives the loop gets to: all of them up to the first that ends
    the connection. *)
Fixpoint executed (receives : list Receive) : list Receive :=
  match receives with
  | [] => []
  | r :: receives => r :: (if turn_connected r then executed receives else [])
  end.

(** Whether the loop is still going when the receives ran out. *)
Definition still_connected (receives : list Receive) : bool :=
  forallb turn_connected receives.

End Vocabulary.

(** The entries of a registry are distinct live [Process] objects, each
    holding a live thread object of its own. *)
Inductive owned : list loc → gmap loc Process → gmap loc Thread → Prop :=
| owned_nil hp ht : owned [] hp ht
| owned_cons p pr t th l hp ht :
    hp !! p = Some pr →
    mThread pr = Some t →
    ht !! t = Some th →
    owned l (delete p hp) (delete t ht) →
    owned (p :: l) hp ht.

Definition registry_owned (w : World) : Prop :=
  owned (mProcessList w) (processes w) (threads w).

(** A layout to run the definitions on: kind 0 and 1 as the wire frame of
    the specification has them, the kind in the first of four header
    bytes, sixteen bytes of body. *)
Definition example_packet : SCIPacket :=
  Build_SCIPacket 0 1 0%nat 4%nat 16%nat
    ltac:(done) ltac:(lia) ltac:(lia).

(** ** Vocabulary of the further properties *)

(** Every live [Process] carries the interval [createNewProcess] gives
    to the constructor. *)
Definition default_intervals (w : World) : Prop :=
  ∀ p pr, processes w !! p = Some pr →
          mIntervalTime pr = INTERVAL_OF_TIME_MILLISECONDS.

(** The bytes of a [RawData] in the order of its layout. *)
Definition frame_bytes (rawData : RawData) : list Z :=
  mHeader rawData ++ mBody rawData.

(** A turn on which the [switch] takes the DISCONNECT case. *)
Definition delivers_disconnect `{SCIPacket} (r : Receive) : Prop :=
  0 < received_count r
  ∧ kind_of (memcpy_RawData (received_buffer r)) = DISCONNECT.

(** * Properties *)

(** ** Running a computation *)

Lemma and_then_Some {A B} (c : M A) (k : A → M B) w a w' :
  c w = Some (a, w') → and_then c k w = k a w'.
Proof. intros Hc. unfold and_then. by rewrite Hc. Qed.

Lemma and_then_None {A B} (c : M A) (k : A → M B) w :
  c w = None → and_then c k w = None.
Proof. intros Hc. unfold and_then. by rewrite Hc. Qed.

(** Runs the calls that cannot go wrong. *)
Ltac run_calls :=
  unfold closesocket, logging, sleep_for, socket, bind, listen, accept,
    push_back, emit, set_mSocket, set_mProcessList, set_processes,
    set_threads, set_open_sockets, modify, get, ret, and_then; simpl.

(** Closes a goal by a hypothesis that places an event in an explicit
    list of other events. *)
Ltac absent_from_calls Hin :=
  repeat (apply elem_of_cons in Hin as [Hin|Hin]; [discriminate Hin|]);
  by apply elem_of_nil in Hin.

(** Runs the heap primitives on objects that were just allocated. *)
Ltac run_heap :=
  unfold SetThread, GetThread, GetIntervalTime, joinable, detach,
    delete_thread, delete_process, and_then; simpl;
  repeat (rewrite lookup_insert_eq; simpl).

(** ** createNewProcess *)

Lemma createNewProcess_joinable w :
  let p := fresh (dom (processes w)) in
  let t := fresh (dom (threads w)) in
  createNewProcess true w =
    Some (true, mkWorld (mSocket w) (mProcessList w ++ [p])
                  (<[p := mkProcess (Some t) INTERVAL_OF_TIME_MILLISECONDS]> (processes w))
                  (<[t := mkThread p false]> (threads w))
                  (open_sockets w) (trace w ++ [EvThreadStart p])).
Proof.
  intros p t. unfold createNewProcess, and_then; simpl.
  run_heap. fold p t. by rewrite !insert_insert_eq.
Qed.

Lemma createNewProcess_not_joinable w :
  createNewProcess false w = Some (false, w).
Proof.
  unfold createNewProcess, and_then; simpl.
  run_heap.
  rewrite insert_insert_eq, !delete_insert_eq.
  rewrite !delete_id by (apply not_elem_of_dom, is_fresh).
  by destruct w.
Qed.

(** ** The registry *)

Lemma erase_first_app process l1 l2 :
  process ∉ l1 → erase_first process (l1 ++ process :: l2) = l1 ++ l2.
Proof.
  induction l1 as [|p l1 IH]; intros Hnotin; simpl.
  - by rewrite decide_True.
  - apply not_elem_of_cons in Hnotin as [Hne Hnotin].
    rewrite decide_False by done. by rewrite IH.
Qed.

Lemma erase_first_absent process l :
  process ∉ l → erase_first process l = l.
Proof.
  induction l as [|p l IH]; intros Hnotin; simpl; [done|].
  apply not_elem_of_cons in Hnotin as [Hne Hnotin].
  rewrite decide_False by done. by rewrite IH.
Qed.

Lemma close_connection_runs process sockclient w :
  close_connection process sockclient w =
    Some (tt, mkWorld (mSocket w) (erase_first process (mProcessList w))
                (processes w) (threads w)
                (open_sockets w ∖ {[sockclient]})
                (trace w ++ [EvCloseSocket sockclient; EvLog LogDisconnectedClient])).
Proof.
  unfold close_connection. run_calls. by rewrite <- app_assoc.
Qed.

(** ** Proc, phase by phase *)

Lemma Proc_unfold `{SCIPacket} process env w :
  Proc process env w =
    match createNewProcess (next_joinable env) (accepted (accept_result env) w) with
    | Some (_, w1) =>
        match receive_loop process (accept_result env) (receives env) w1 with
        | Some (true, w2) => Some (Serving, w2)
        | Some (false, w2) =>
            match close_connection process (accept_result env) w2 with
            | Some (_, w') => Some (Returned, w')
            | None => None
            end
        | None => None
        end
    | None => None
    end.
Proof.
  unfold Proc, accepted. run_calls.
  destruct (decide (accept_result env = INVALID_SOCKET)); simpl;
    rewrite <- !app_assoc; simpl;
    (destruct (createNewProcess _ _) as [[b w1]|]; [|done]);
    (destruct (receive_loop _ _ _ _) as [[[] w2]|]; [done| |done]);
    unfold close_connection; run_calls; done.
Qed.

(** ** Connect *)

Lemma Connect_setup_ok port address env fuel w :
  setup_succeeds env = true →
  Connect port address env fuel w =
    match createNewProcess (first_joinable env) (listening port address env w) with
    | Some (_, w1) =>
        match wait_for_threads (others env) 0 fuel w1 with
        | Some (finished, w2) => Some (if finished then Some true else None, w2)
        | None => None
        end
    | None => None
    end.
Proof.
  unfold setup_succeeds, Connect, listening, setup_calls.
  intros [[Hs Hb%Z.eqb_eq]%andb_prop Hl%Z.eqb_eq]%andb_prop.
  apply negb_true_iff, bool_decide_eq_false in Hs.
  run_calls. rewrite decide_False by done. simpl.
  rewrite decide_False by done. rewrite Hb, Hl. simpl.
  rewrite <- !app_assoc. simpl.
  destruct (createNewProcess _ _) as [[b w1]|]; [|done].
  by destruct (wait_for_threads _ _ _ _) as [[[] w2]|].
Qed.

Lemma Connect_setup_fails port address env fuel w :
  setup_succeeds env = false →
  Connect port address env fuel w =
    Some (Some false,
          mkWorld INVALID_SOCKET (mProcessList w) (processes w) (threads w)
            (if decide (socket_result env = INVALID_SOCKET) then open_sockets w
             else ({[socket_result env]} ∪ open_sockets w) ∖ {[socket_result env]})
            (trace w ++ failure_calls port address env)).
Proof.
  unfold setup_succeeds, Connect, failure_calls. intros Hfail. run_calls.
  destruct (decide (socket_result env = INVALID_SOCKET)) as [Hs|Hs]; simpl.
  { rewrite decide_True by done. simpl. rewrite <- !app_assoc. simpl.
    by rewrite Hs. }
  rewrite decide_False by done.
  rewrite bool_decide_eq_false_2 in Hfail by done. simpl in Hfail.
  destruct (bind_result env =? 0) eqn:Hb; simpl in *.
  - rewrite Hfail. simpl. rewrite <- !app_assoc. simpl.
    apply Z.eqb_eq in Hb. by rewrite Hb.
  - by rewrite <- !app_assoc.
Qed.

Lemma wait_for_threads_left others n :
  ∀ k fuel w,
    (∀ j, (j < n)%nat → observed others k (mProcessList w) j ≠ []) →
    observed others k (mProcessList w) n = [] →
    (n < fuel)%nat →
    wait_for_threads others k fuel w =
      Some (true, mkWorld (mSocket w) [] (processes w) (threads w)
                    (open_sockets w) (trace w ++ replicate n (EvSleep 1000))).
Proof.
  induction n as [|n IH]; intros k fuel w Hbusy Hempty Hfuel;
    (destruct fuel as [|fuel]; [lia|]); simpl in *.
  - run_calls. rewrite Hempty. rewrite app_nil_r. destruct w; simpl in *.
    by subst.
  - run_calls. specialize (Hbusy 0%nat ltac:(lia)) as Hfirst. simpl in Hfirst.
    destruct (mProcessList w) as [|p l] eqn:Hl; [done|]. simpl.
    rewrite IH; simpl.
    + by rewrite <- app_assoc.
    + intros j Hj. apply (Hbusy (S j)). lia.
    + done.
    + lia.
Qed.

Lemma wait_for_threads_blocked others fuel :
  ∀ k w,
    (∀ j, (j < fuel)%nat → observed others k (mProcessList w) j ≠ []) →
    ∃ w', wait_for_threads others k fuel w = Some (false, w')
          ∧ trace w' = trace w ++ replicate fuel (EvSleep 1000).
Proof.
  induction fuel as [|fuel IH]; intros k w Hbusy; simpl.
  - exists w. by rewrite app_nil_r.
  - run_calls. specialize (Hbusy 0%nat ltac:(lia)) as Hfirst. simpl in Hfirst.
    destruct (mProcessList w) as [|p l] eqn:Hl; [done|]. simpl.
    edestruct IH as (w' & Hrun & Htrace); last first.
    + exists w'. split; [exact Hrun|]. rewrite Htrace. simpl.
      by rewrite <- app_assoc.
    + simpl. intros j Hj. apply (Hbusy (S j)). lia.
Qed.

Lemma wait_for_threads_left_empty others fuel :
  ∀ k w w',
    wait_for_threads others k fuel w = Some (true, w') → mProcessList w' = [].
Proof.
  induction fuel as [|fuel IH]; intros k w w'; simpl; [done|].
  run_calls. destruct (mProcessList w) as [|p l] eqn:Hl; simpl.
  - intros [= <-]. done.
  - apply IH.
Qed.

(** ** The receive loop *)

Section Worker.
Context `{SCIPacket}.

Lemma record_record evs1 evs2 w :
  record evs2 (record evs1 w) = record (evs1 ++ evs2) w.
Proof. unfold record; simpl. by rewrite app_assoc. Qed.

Lemma record_nil w : record [] w = w.
Proof. unfold record. rewrite app_nil_r. by destruct w. Qed.

Lemma recv_runs s r w :
  recv s r w =
    Some ((received_count r, received_buffer r), record [EvRecv s (received_count r)] w).
Proof.
  unfold recv, received_count, received_buffer, record.
  by destruct (arriving r).
Qed.

Lemma dispatch_runs s rawData w :
  dispatch s rawData w =
    Some (stays_connected rawData, record (dispatch_calls s rawData) w).
Proof.
  unfold dispatch, stays_connected, dispatch_calls, record, send.
  destruct (decide (kind_of rawData = DISCONNECT)); [done|].
  destruct (decide (kind_of rawData = MESSAGE)); run_calls.
  - by rewrite <- app_assoc.
  - rewrite app_nil_r. by destruct w.
Qed.

Lemma iteration_runs process s r w pr :
  processes w !! process = Some pr →
  iteration process s r w =
    Some (turn_connected r, record (turn_calls s (mIntervalTime pr) r) w).
Proof.
  intros Hlive. unfold iteration, turn_connected, turn_calls, handed_to_switch.
  unfold and_then at 1. unfold send at 1, emit, modify.
  unfold and_then at 1. rewrite recv_runs. simpl.
  destruct (0 <? received_count r); unfold and_then at 1.
  - unfold and_then at 1. unfold logging, emit, modify at 1.
    rewrite dispatch_runs. unfold GetIntervalTime. run_calls.
    rewrite Hlive. unfold record; simpl. by rewrite <- !app_assoc.
  - unfold GetIntervalTime. run_calls.
    rewrite Hlive. unfold record; simpl. by rewrite <- !app_assoc.
Qed.

Lemma iteration_dangling process s r w :
  processes w !! process = None → iteration process s r w = None.
Proof.
  intros Hdead. unfold iteration.
  unfold and_then at 1. unfold send at 1, emit, modify.
  unfold and_then at 1. rewrite recv_runs. simpl.
  destruct (0 <? received_count r); unfold and_then at 1.
  - unfold and_then at 1. unfold logging, emit, modify at 1.
    rewrite dispatch_runs. unfold GetIntervalTime. run_calls. by rewrite Hdead.
  - unfold GetIntervalTime. run_calls. by rewrite Hdead.
Qed.

Lemma receive_loop_runs process s pr receives :
  ∀ w,
    processes w !! process = Some pr →
    receive_loop process s receives w =
      Some (still_connected receives,
            record (concat (turn_calls s (mIntervalTime pr) <$> executed receives)) w).
Proof.
  induction receives as [|r receives IH]; intros w Hlive; simpl.
  - by rewrite record_nil.
  - unfold and_then. rewrite (iteration_runs _ _ _ _ _ Hlive).
    destruct (turn_connected r); simpl.
    + rewrite IH by done. by rewrite record_record.
    + by rewrite app_nil_r.
Qed.

Lemma store_seq data buffer start len :
  (start + len ≤ length data)%nat →
  store data buffer <$> seq start len = take len (drop start data).
Proof.
  intros Hlen. apply list_eq. intros i. rewrite list_lookup_fmap.
  destruct (decide (i < len)%nat) as [Hi|Hi].
  - rewrite lookup_seq_lt, lookup_take_lt, lookup_drop by done. simpl.
    unfold store. destruct (data !! (start + i)%nat) eqn:Hdata; [done|].
    apply lookup_ge_None in Hdata. lia.
  - rewrite lookup_seq_ge, lookup_take_ge by lia. done.
Qed.

Lemma memcpy_full_frame r data :
  arriving r = Some data →
  (sizeof_RawData ≤ length data)%nat →
  memcpy_RawData (received_buffer r) =
    mkRawData (take RAWDATA_HEADER_SIZE data)
              (take RAWDATA_BODY_SIZE (drop RAWDATA_HEADER_SIZE data)).
Proof.
  unfold sizeof_RawData, memcpy_RawData, received_buffer.
  intros -> Hlen. pose proof rawdata_fits_buffer as Hfits.
  rewrite !store_seq by (rewrite length_take; lia).
  rewrite drop_0, take_take, take_drop_commute, take_take.
  rewrite (take_drop_commute data).
  by rewrite !Nat.min_l by lia.
Qed.

Lemma turn_calls_on_connection s interval r :
  Forall (λ e, on_connection s e) (turn_calls s interval r).
Proof.
  unfold turn_calls, dispatch_calls.
  destruct (handed_to_switch r); repeat case_decide;
    repeat constructor; simpl; by rewrite ?bool_decide_eq_true_2.
Qed.

Lemma loop_calls_on_connection s interval receives :
  Forall (λ e, on_connection s e) (concat (turn_calls s interval <$> receives)).
Proof.
  apply Forall_concat, Forall_fmap, Forall_forall. intros r _.
  apply turn_calls_on_connection.
Qed.

Lemma turn_calls_head s interval r :
  ∃ rest, turn_calls s interval r = EvSend s DISCONNECT :: rest.
Proof. unfold turn_calls. simpl. eauto. Qed.

Lemma failed_receive_turn s interval r :
  received_count r ≤ 0 →
  turn_connected r = true
  ∧ turn_calls s interval r =
      [EvSend s DISCONNECT; EvRecv s (received_count r); EvSleep interval].
Proof.
  intros Hcount. unfold turn_connected, turn_calls, handed_to_switch.
  by rewrite (proj2 (Z.ltb_ge 0 (received_count r)) Hcount).
Qed.

Lemma Proc_after_spawn process env w pr :
  next_joinable env = true →
  processes w !! process = Some pr →
  ∃ w1,
    createNewProcess (next_joinable env) (accepted (accept_result env) w) = Some (true, w1)
    ∧ processes w1 !! process = Some pr
    ∧ mProcessList w1 = mProcessList w ++ [fresh (dom (processes w))]
    ∧ trace w1 =
        trace w ++ [EvLog LogWaitConnection;
                    EvAccept (mSocket w) (accept_result env);
                    EvLog LogConnectionAccepted; EvLog LogHello;
                    EvThreadStart (fresh (dom (processes w)))]
    ∧ processes w1 !! fresh (dom (processes w)) =
        Some (mkProcess (Some (fresh (dom (threads w)))) INTERVAL_OF_TIME_MILLISECONDS)
    ∧ threads w1 !! fresh (dom (threads w)) =
        Some (mkThread (fresh (dom (processes w))) false).
Proof.
  intros -> Hlive. eexists. split; [apply createNewProcess_joinable|]. simpl.
  split; [|split; [done|]; split; [by rewrite <- app_assoc|];
           split; apply lookup_insert_eq].
  rewrite lookup_insert_ne; [done|].
  intros Heq. apply (is_fresh (dom (processes w))). rewrite Heq.
  by apply elem_of_dom.
Qed.

End Worker.

(** ** Disconnect *)

Lemma owned_live l hp ht p :
  owned l hp ht → p ∈ l → is_Some (hp !! p).
Proof.
  induction 1 as [|q pr t th l hp ht Hq Ht Hth Hrest IH]; intros Hin.
  - by apply elem_of_nil in Hin.
  - apply elem_of_cons in Hin as [->|Hin]; [by eexists|].
    destruct (IH Hin) as [pr' Hpr'].
    apply lookup_delete_Some in Hpr' as [_ Hpr']. by eexists.
Qed.

Lemma owned_snoc l hp ht p pr t th :
  owned l hp ht →
  hp !! p = None → ht !! t = None → mThread pr = Some t →
  owned (l ++ [p]) (<[p := pr]> hp) (<[t := th]> ht).
Proof.
  induction 1 as [|q prq tq thq l hp ht Hq Htq Hthq Hrest IH];
    intros Hp Ht Hthread; simpl.
  - eapply owned_cons; [apply lookup_insert_eq|done|apply lookup_insert_eq|].
    constructor.
  - assert (p ≠ q) by congruence. assert (t ≠ tq) by congruence.
    eapply owned_cons; [by rewrite lookup_insert_ne|done|by rewrite lookup_insert_ne|].
    rewrite !delete_insert_ne by done.
    apply IH; [by rewrite lookup_delete_ne|by rewrite lookup_delete_ne|done].
Qed.

Lemma createNewProcess_keeps_registry_owned w w' :
  registry_owned w →
  createNewProcess true w = Some (true, w') →
  registry_owned w'.
Proof.
  unfold registry_owned. intros Howned.
  rewrite createNewProcess_joinable. intros [= <-]. simpl.
  apply owned_snoc; [done| | |done];
    apply not_elem_of_dom, is_fresh.
Qed.

Lemma release_owned_entry process pr t th w :
  processes w !! process = Some pr →
  mThread pr = Some t →
  threads w !! t = Some th →
  release process w =
    Some (tt, mkWorld (mSocket w) (mProcessList w) (delete process (processes w))
                (delete t (threads w)) (open_sockets w) (trace w)).
Proof.
  intros Hp Ht Hth. unfold release, GetThread. run_calls. rewrite Hp. simpl.
  rewrite Ht. unfold delete_thread, delete_process. run_calls.
  rewrite Hth. simpl. by rewrite Hp.
Qed.

Lemma for_each_release_owned l :
  ∀ w,
    owned l (processes w) (threads w) →
    ∃ w',
      for_each l release w = Some (tt, w')
      ∧ mSocket w' = mSocket w
      ∧ mProcessList w' = mProcessList w
      ∧ open_sockets w' = open_sockets w
      ∧ trace w' = trace w
      ∧ (∀ p, p ∈ l → processes w' !! p = None)
      ∧ (∀ p, p ∉ l → processes w' !! p = processes w !! p)
      ∧ (∀ p pr t, p ∈ l → processes w !! p = Some pr → mThread pr = Some t →
                   threads w' !! t = None)
      ∧ threads w' ⊆ threads w.
Proof.
  induction l as [|q l IH]; intros w Howned; simpl.
  - exists w. split; [done|]. repeat (split; [done|]).
    split; [intros p Hin; by apply elem_of_nil in Hin|].
    split; [done|]. split; [|done].
    intros p pr t Hin. by apply elem_of_nil in Hin.
  - inversion Howned as [|q' pr t th l' hp ht Hq Ht Hth Hrest]; subst.
    assert (q ∉ l) as Hfresh.
    { intros Hin. destruct (owned_live _ _ _ _ Hrest Hin) as [x Hx].
      by rewrite lookup_delete_eq in Hx. }
    unfold and_then. rewrite (release_owned_entry _ _ _ _ _ Hq Ht Hth).
    destruct (IH (mkWorld (mSocket w) (mProcessList w) (delete q (processes w))
                    (delete t (threads w)) (open_sockets w) (trace w)) Hrest)
      as (w' & Hrun & Hs & Hreg & Hopen & Htrace & Hgone & Hkept
          & Hthreads & Hsub).
    simpl in *. exists w'. split; [exact Hrun|].
    repeat (split; [done|]).
    split; [|split; [|split]].
    + intros p [->|Hin]%elem_of_cons; [|by apply Hgone].
      by rewrite Hkept, lookup_delete_eq.
    + intros p [Hne Hnotin]%not_elem_of_cons.
      by rewrite Hkept, lookup_delete_ne.
    + intros p pr' t' [->|Hin]%elem_of_cons Hp Ht'.
      * assert (t' = t) as -> by congruence.
        eapply lookup_weaken_None; [|exact Hsub]. apply lookup_delete_eq.
      * apply (Hthreads p pr' t' Hin); [|done].
        rewrite lookup_delete_ne; [done|]. by intros ->.
    + etrans; [exact Hsub|]. apply delete_subseteq.
Qed.

Section Shutdown.
Context `{SCIPacket}.

Lemma Disconnect_invalid w :
  mSocket w = INVALID_SOCKET → Disconnect w = Some (false, w).
Proof.
  intros Hs. unfold Disconnect. run_calls. by rewrite decide_True.
Qed.

Lemma Disconnect_valid w :
  registry_owned w →
  mSocket w ≠ INVALID_SOCKET →
  ∃ w',
    Disconnect w = Some (true, w')
    ∧ mSocket w' = mSocket w
    ∧ mProcessList w' = []
    ∧ open_sockets w' = open_sockets w ∖ {[mSocket w]}
    ∧ trace w' = trace w ++ [EvSend (mSocket w) DISCONNECT; EvCloseSocket (mSocket w)]
    ∧ (∀ p, p ∈ mProcessList w → processes w' !! p = None)
    ∧ (∀ p, p ∉ mProcessList w → processes w' !! p = processes w !! p)
    ∧ (∀ p pr t, p ∈ mProcessList w → processes w !! p = Some pr →
                 mThread pr = Some t → threads w' !! t = None).
Proof.
  intros Howned Hs. unfold Disconnect, send. run_calls.
  rewrite decide_False by done.
  edestruct (for_each_release_owned (mProcessList w)) as
    (w' & Hrun & Hs' & Hreg & Hopen & Htrace & Hgone & Hkept & Hthreads & _);
    [|rewrite Hrun]; [exact Howned|].
  simpl in *. eexists. split; [done|]. simpl.
  rewrite Hs', Hopen, Htrace, <- app_assoc. done.
Qed.

End Shutdown.

(** C10. A spawn whose thread is joinable appends exactly one handle to
    the registry, whatever the registry holds already: [MAX_CLIENT_NUM]
    is consulted nowhere, and one more spawn than that constant from the
    freshly constructed server leaves more than [MAX_CLIENT_NUM] handles
    registered. *)
Theorem createNewProcess_not_bounded_by_MAX_CLIENT_NUM :
  (∀ w, ∃ p w',
      createNewProcess true w = Some (true, w')
      ∧ mProcessList w' = mProcessList w ++ [p]
      ∧ length (mProcessList w') = S (length (mProcessList w)))
  ∧ (∀ n w, ∃ w',
      spawn n w = Some (tt, w')
      ∧ length (mProcessList w') = (length (mProcessList w) + n)%nat)
  ∧ (∃ w',
      spawn (S MAX_CLIENT_NUM) Impl = Some (tt, w')
      ∧ (MAX_CLIENT_NUM < length (mProcessList w'))%nat).
Proof.
  assert (Hone : ∀ w, ∃ p w',
      createNewProcess true w = Some (true, w')
      ∧ mProcessList w' = mProcessList w ++ [p]
      ∧ length (mProcessList w') = S (length (mProcessList w))).
  { intros w. eexists _, _. split; [apply createNewProcess_joinable|].
    simpl. split; [done|]. rewrite length_app. simpl. lia. }
  assert (Hmany : ∀ n w, ∃ w',
      spawn n w = Some (tt, w')
      ∧ length (mProcessList w') = (length (mProcessList w) + n)%nat).
  { induction n as [|n IH]; intros w; simpl.
    - exists w. split; [done|lia].
    - destruct (Hone w) as (p & w1 & Hrun & _ & Hlen).
      destruct (IH w1) as (w' & Hrest & Hlen').
      exists w'. split.
      + by rewrite (and_then_Some _ _ _ _ _ Hrun).
      + lia. }
  split; [exact Hone|]. split; [exact Hmany|].
  destruct (Hmany (S MAX_CLIENT_NUM) Impl) as (w' & Hrun & Hlen).
  exists w'. split; [done|]. rewrite Hlen. simpl. lia.
Qed.

(** C9. When the loop of a worker ends (it transitions to CLOSED), [Proc]
    closes the connection it accepted, erases from the registry the first
    entry equal to its own [process] and no other, touches nothing else,
    and returns. *)
Theorem Proc_closed_erases_own_entry `{SCIPacket} process env w b w1 w2 l1 l2 :
  createNewProcess (next_joinable env) (accepted (accept_result env) w) = Some (b, w1) →
  receive_loop process (accept_result env) (receives env) w1 = Some (false, w2) →
  process ∉ l1 →
  mProcessList w2 = l1 ++ process :: l2 →
  ∃ w',
    Proc process env w = Some (Returned, w')
    ∧ mProcessList w' = l1 ++ l2
    ∧ open_sockets w' = open_sockets w2 ∖ {[accept_result env]}
    ∧ mSocket w' = mSocket w2
    ∧ processes w' = processes w2
    ∧ threads w' = threads w2
    ∧ trace w' = trace w2 ++ [EvCloseSocket (accept_result env);
                              EvLog LogDisconnectedClient].
Proof.
  intros Hspawn Hloop Hnotin Hreg.
  rewrite Proc_unfold, Hspawn, Hloop, close_connection_runs.
  eexists. split; [done|]. simpl.
  by rewrite Hreg, erase_first_app.
Qed.

Lemma Proc_closed_erases_own_entry_witness :
  ∃ w',
    Proc (H := example_packet) 1%positive
      (mkProcEnv 7 true [delivers [0; 0; 0; 0]]) listening_world = Some (Returned, w')
    ∧ mProcessList w' = [] ++ [2%positive].
Proof.
  edestruct (Proc_closed_erases_own_entry (H := example_packet) 1%positive
               (mkProcEnv 7 true [delivers [0; 0; 0; 0]]) listening_world true)
    with (l1 := @nil loc) (l2 := [2%positive])
    as (w' & Hrun & Hreg & _).
  - reflexivity.
  - vm_compute. reflexivity.
  - apply not_elem_of_nil.
  - reflexivity.
  - exists w'. split; assumption.
Defined.

(** C1. When [socket], [bind] and [listen] succeed, [Start] spawns the
    first acceptor and then tests the registry, sleeping one second after
    every test that finds an entry.  It returns [true] at the first test
    that finds the registry empty, having slept once per earlier test;
    as long as every test finds an entry it has not returned; and whenever
    it has returned, the value is [true] and the registry is empty. *)
Theorem Start_returns_at_first_empty_registry port address env w :
  setup_succeeds env = true →
  (∀ n fuel,
      (∀ j, (j < n)%nat → observed (others env) 0 (first_registry env w) j ≠ []) →
      observed (others env) 0 (first_registry env w) n = [] →
      (n < fuel)%nat →
      ∃ w',
        Start port address env fuel w = Some (Some true, w')
        ∧ mProcessList w' = []
        ∧ trace w' =
            trace w ++ setup_calls port address env
            ++ (if first_joinable env
                then [EvThreadStart (fresh (dom (processes w)))] else [])
            ++ replicate n (EvSleep 1000))
  ∧ (∀ fuel,
      (∀ j, (j < fuel)%nat → observed (others env) 0 (first_registry env w) j ≠ []) →
      ∃ w', Start port address env fuel w = Some (None, w'))
  ∧ (∀ fuel b w',
      Start port address env fuel w = Some (Some b, w') →
      b = true ∧ mProcessList w' = []).
Proof.
  intros Hsetup. unfold Start, first_registry.
  assert (Hspawn : ∃ w1,
    createNewProcess (first_joinable env) (listening port address env w) = Some (first_joinable env, w1)
    ∧ mProcessList w1 =
        (if first_joinable env then mProcessList w ++ [fresh (dom (processes w))]
         else mProcessList w)
    ∧ trace w1 =
        trace w ++ setup_calls port address env
        ++ (if first_joinable env
            then [EvThreadStart (fresh (dom (processes w)))] else [])).
  { destruct (first_joinable env).
    - eexists. split; [apply createNewProcess_joinable|]. simpl.
      split; [done|]. by rewrite <- app_assoc.
    - eexists. split; [apply createNewProcess_not_joinable|]. done. }
  destruct Hspawn as (w1 & Hspawn & Hreg & Htrace).
  split; [|split].
  - intros n fuel Hbusy Hempty Hfuel.
    rewrite (Connect_setup_ok _ _ _ _ _ Hsetup), Hspawn.
    rewrite <- Hreg in Hbusy, Hempty.
    rewrite (wait_for_threads_left _ _ _ _ _ Hbusy Hempty Hfuel).
    eexists. split; [done|]. simpl. split; [done|].
    rewrite Htrace. by rewrite <- !app_assoc.
  - intros fuel Hbusy.
    rewrite (Connect_setup_ok _ _ _ _ _ Hsetup), Hspawn.
    rewrite <- Hreg in Hbusy.
    destruct (wait_for_threads_blocked _ _ _ _ Hbusy) as (w' & Hrun & _).
    rewrite Hrun. by exists w'.
  - intros fuel b w'.
    rewrite (Connect_setup_ok _ _ _ _ _ Hsetup), Hspawn.
    destruct (wait_for_threads _ _ _ _) as [[[] w2]|] eqn:Hwait; [|done..].
    intros [= <- <-]. split; [done|].
    by eapply wait_for_threads_left_empty.
Qed.

Lemma Start_returns_at_first_empty_registry_witness :
  ∃ w',
    Start 5000 "127.0.0.1" (mkConnectEnv 5 0 0 true (λ _ _, [])) 2 Impl = Some (Some true, w')
    ∧ mProcessList w' = [].
Proof.
  destruct (Start_returns_at_first_empty_registry 5000 "127.0.0.1"
              (mkConnectEnv 5 0 0 true (λ _ _, [])) Impl eq_refl)
    as (Hreturns & _ & _).
  destruct (Hreturns 1%nat 2%nat) as (w' & Hrun & Hreg & _).
  - intros j Hj. assert (j = 0%nat) as -> by lia. simpl. discriminate.
  - reflexivity.
  - lia.
  - exists w'. split; assumption.
Defined.

(** C7. When [socket], [bind] or [listen] fails, [Start] returns [false]
    at once, whatever time it is given: the handle it obtained is closed
    again and [mSocket] is invalid, the registry and the objects are as
    before, and the only calls made are the setup calls up to the failing
    one, each once, its error line and the close; no thread is started
    and there is no sleep. *)
Theorem Start_failure_releases_and_spawns_nothing port address env fuel w :
  setup_succeeds env = false →
  ∃ w',
    Start port address env fuel w = Some (Some false, w')
    ∧ mSocket w' = INVALID_SOCKET
    ∧ (socket_result env ≠ INVALID_SOCKET → socket_result env ∉ open_sockets w')
    ∧ open_sockets w' ⊆ open_sockets w
    ∧ mProcessList w' = mProcessList w
    ∧ processes w' = processes w
    ∧ threads w' = threads w
    ∧ trace w' = trace w ++ failure_calls port address env
    ∧ (∀ p, EvThreadStart p ∉ failure_calls port address env)
    ∧ (∀ t, EvSleep t ∉ failure_calls port address env)
    ∧ (length (filter (λ e, is_setup_call e) (failure_calls port address env)) ≤ 3)%nat.
Proof.
  intros Hfail. unfold Start. rewrite (Connect_setup_fails _ _ _ _ _ Hfail).
  eexists. split; [done|]. simpl.
  split; [done|]. split; [|split]; [| |split; [done|]; split; [done|]; split; [done|];
    split; [done|]].
  - intros Hs. rewrite decide_False by done.
    rewrite elem_of_difference, elem_of_singleton. tauto.
  - destruct (decide _); [done|].
    intros s. rewrite elem_of_difference, elem_of_union, !elem_of_singleton. tauto.
  - unfold failure_calls.
    destruct (decide _); [|destruct (negb _)];
      (split; [|split]); try (intros x Hin; absent_from_calls Hin);
      vm_compute; lia.
Qed.

Lemma Start_failure_releases_and_spawns_nothing_witness :
  ∃ w',
    Start 5000 "127.0.0.1" (mkConnectEnv 5 10048 0 true (λ _ l, l)) 0 Impl = Some (Some false, w')
    ∧ mProcessList w' = []
    ∧ (5 ∉ open_sockets w').
Proof.
  destruct (Start_failure_releases_and_spawns_nothing 5000 "127.0.0.1"
              (mkConnectEnv 5 10048 0 true (λ _ l, l)) 0 Impl eq_refl)
    as (w' & Hrun & _ & Hclosed & _ & Hreg & _).
  exists w'. split; [assumption|]. split; [assumption|].
  apply Hclosed. discriminate.
Defined.

(** C2. A turn of an active worker that received a frame dispatches on
    the kind byte.  DISCONNECT: the goodbye line is logged and the loop
    is over, whatever receives would follow.  MESSAGE: the body is logged,
    a DISCONNECT frame is sent to the peer, and the loop goes on with the
    next receive.  Any other kind: the [switch] does nothing and the loop
    goes on. *)
Theorem dispatch_follows_kind_byte `{SCIPacket} process s r receives w pr :
  processes w !! process = Some pr →
  0 < received_count r →
  (kind_of (memcpy_RawData (received_buffer r)) = DISCONNECT →
     receive_loop process s (r :: receives) w =
       Some (false,
             record [EvSend s DISCONNECT; EvRecv s (received_count r);
                     EvLog LogDataReceived; EvLog LogGoodbye;
                     EvSleep (mIntervalTime pr)] w))
  ∧ (kind_of (memcpy_RawData (received_buffer r)) = MESSAGE →
     receive_loop process s (r :: receives) w =
       receive_loop process s receives
         (record [EvSend s DISCONNECT; EvRecv s (received_count r);
                  EvLog LogDataReceived;
                  EvLog (LogBody (mBody (memcpy_RawData (received_buffer r))));
                  EvSend s DISCONNECT;
                  EvSleep (mIntervalTime pr)] w))
  ∧ (kind_of (memcpy_RawData (received_buffer r)) ≠ DISCONNECT →
     kind_of (memcpy_RawData (received_buffer r)) ≠ MESSAGE →
     receive_loop process s (r :: receives) w =
       receive_loop process s receives
         (record [EvSend s DISCONNECT; EvRecv s (received_count r);
                  EvLog LogDataReceived;
                  EvSleep (mIntervalTime pr)] w)).
Proof.
  intros Hlive Hdata%Z.ltb_lt. simpl. unfold and_then.
  rewrite (iteration_runs _ _ _ _ _ Hlive).
  unfold turn_connected, turn_calls, handed_to_switch, stays_connected,
    dispatch_calls.
  rewrite Hdata. split; [|split].
  - intros Hkind. by rewrite !decide_True.
  - intros Hkind.
    assert (kind_of (memcpy_RawData (received_buffer r)) ≠ DISCONNECT) as Hne.
    { rewrite Hkind. intros Heq. by apply case_labels_distinct. }
    by rewrite !(decide_False _ _ Hne), decide_True.
  - intros Hne1 Hne2.
    by rewrite !(decide_False _ _ Hne1), (decide_False _ _ Hne2).
Qed.

Lemma dispatch_follows_kind_byte_witness :
  receive_loop (H := example_packet) 1%positive 7
      [delivers [1; 0; 0; 0; 104; 105]] listening_world =
    Some (true,
          record [EvSend 7 0; EvRecv 7 6; EvLog LogDataReceived;
                  EvLog (LogBody [104; 105; 0; 0; 0; 0; 0; 0;
                                  0; 0; 0; 0; 0; 0; 0; 0]);
                  EvSend 7 0; EvSleep 1000] listening_world).
Proof.
  destruct (dispatch_follows_kind_byte (H := example_packet) 1%positive 7
              (delivers [1; 0; 0; 0; 104; 105]) [] listening_world
              (mkProcess (Some 1%positive) 1000) eq_refl eq_refl)
    as (_ & Hmessage & _).
  exact (Hmessage eq_refl).
Defined.

(** C8. Every turn the loop of an active worker takes starts with a
    DISCONNECT frame sent to the peer, goes on with one receive, and ends
    with a sleep of the interval the worker's [Process] carries; between
    the receive and the sleep there is only the dispatch, which is empty
    when nothing arrived.  The interval of every [Process] that
    [createNewProcess] registers is 1000 milliseconds. *)
Theorem every_turn_probes_receives_sleeps `{SCIPacket} process s receives w pr :
  processes w !! process = Some pr →
  (∃ connected w' turns,
      receive_loop process s receives w = Some (connected, w')
      ∧ trace w' = trace w ++ concat turns
      ∧ Forall2 (λ r calls, ∃ dispatched,
            calls = [EvSend s DISCONNECT; EvRecv s (received_count r)]
                    ++ dispatched ++ [EvSleep (mIntervalTime pr)]
            ∧ (∀ t, EvSleep t ∉ dispatched)
            ∧ (∀ s' n, EvRecv s' n ∉ dispatched)
            ∧ (received_count r ≤ 0 → dispatched = []))
          (executed receives) turns)
  ∧ (∀ w0 w1,
      createNewProcess true w0 = Some (true, w1) →
      ∃ p pr',
        last (mProcessList w1) = Some p
        ∧ processes w1 !! p = Some pr'
        ∧ mIntervalTime pr' = 1000).
Proof.
  intros Hlive. split.
  - eexists _, _, _. split; [by apply receive_loop_runs|].
    split; [done|].
    apply Forall2_fmap_r, Forall_Forall2_diag, Forall_forall. intros r _.
    unfold compose. cbv beta. unfold turn_calls, handed_to_switch.
    destruct (0 <? received_count r) eqn:Hdata.
    + eexists. split; [done|]. unfold dispatch_calls.
      split; [|split].
      * intros t Hin. repeat case_decide; absent_from_calls Hin.
      * intros s' n Hin. repeat case_decide; absent_from_calls Hin.
      * apply Z.ltb_lt in Hdata. lia.
    + exists []. split; [done|]. split; [|split]; [| |done].
      * intros t Hin. absent_from_calls Hin.
      * intros s' n Hin. absent_from_calls Hin.
  - intros w0 w1. rewrite createNewProcess_joinable. intros [= <-]. simpl.
    eexists _, _. split; [apply last_snoc|]. split; [apply lookup_insert_eq|].
    done.
Qed.

Lemma every_turn_probes_receives_sleeps_witness :
  ∃ connected w' turns,
    receive_loop (H := example_packet) 1%positive 7
      [mkReceive (λ _, 0) None; delivers [0; 0; 0; 0]] listening_world =
      Some (connected, w')
    ∧ trace w' = trace listening_world ++ concat turns
    ∧ length turns = 2%nat.
Proof.
  destruct (every_turn_probes_receives_sleeps (H := example_packet) 1%positive 7
              [mkReceive (λ _, 0) None; delivers [0; 0; 0; 0]] listening_world
              (mkProcess (Some 1%positive) 1000) eq_refl)
    as ((connected & w' & turns & Hrun & Htrace & Hturns) & _).
  exists connected, w', turns. split; [assumption|]. split; [assumption|].
  apply Forall2_length in Hturns. rewrite <- Hturns. reflexivity.
Defined.

(** C4, as stated, at one input: a receive of a single byte, shorter
    than the frame of [example_packet], is handed to the [switch] all the
    same; the byte is taken for the kind, the rest of the frame is what
    the buffer held, and the worker leaves its loop on it. *)
Lemma one_byte_receive_is_decoded :
  (length [0] < sizeof_RawData (H := example_packet))%nat
  ∧ handed_to_switch (H := example_packet) (delivers [0]) ≠ None
  ∧ iteration (H := example_packet) 1%positive 7 (delivers [0]) listening_world =
      Some (false,
            record [EvSend 7 0; EvRecv 7 1; EvLog LogDataReceived;
                    EvLog LogGoodbye; EvSleep 1000] listening_world).
Proof.
  split; [vm_compute; lia|]. split; [discriminate|].
  by rewrite (iteration_runs (H := example_packet) _ _ _ _
                (mkProcess (Some 1%positive) 1000)).
Qed.

(** C4, amended. A receive that delivers at least a whole frame is always
    decoded: the kind is the byte of the data at the header index, header
    and body are the first bytes of the data copied as they are, and the
    turn dispatches on that frame.  A receive that fails or delivers
    nothing is not decoded: the turn is the probe, the receive and the
    sleep, and the loop goes on.  Every other receive is dispatched on,
    as the buffer stands after it. *)
Theorem full_frame_is_decoded_verbatim `{SCIPacket} process s w pr :
  processes w !! process = Some pr →
  (∀ r data,
      arriving r = Some data →
      (sizeof_RawData ≤ length data)%nat →
      ∃ kind,
        data !! RAWDATA_HEADER_INDEX = Some kind
        ∧ handed_to_switch r =
            Some (mkRawData (take RAWDATA_HEADER_SIZE data)
                            (take RAWDATA_BODY_SIZE (drop RAWDATA_HEADER_SIZE data)))
        ∧ kind_of (mkRawData (take RAWDATA_HEADER_SIZE data)
                             (take RAWDATA_BODY_SIZE (drop RAWDATA_HEADER_SIZE data)))
          = kind
        ∧ iteration process s r w =
            Some (bool_decide (kind ≠ DISCONNECT),
                  record ([EvSend s DISCONNECT; EvRecv s (received_count r);
                           EvLog LogDataReceived]
                          ++ dispatch_calls s
                               (mkRawData (take RAWDATA_HEADER_SIZE data)
                                  (take RAWDATA_BODY_SIZE (drop RAWDATA_HEADER_SIZE data)))
                          ++ [EvSleep (mIntervalTime pr)]) w))
  ∧ (∀ r,
      received_count r ≤ 0 →
      handed_to_switch r = None
      ∧ iteration process s r w =
          Some (true,
                record [EvSend s DISCONNECT; EvRecv s (received_count r);
                        EvSleep (mIntervalTime pr)] w))
  ∧ (∀ r,
      0 < received_count r →
      iteration process s r w =
        Some (stays_connected (memcpy_RawData (received_buffer r)),
              record ([EvSend s DISCONNECT; EvRecv s (received_count r);
                       EvLog LogDataReceived]
                      ++ dispatch_calls s (memcpy_RawData (received_buffer r))
                      ++ [EvSleep (mIntervalTime pr)]) w)).
Proof.
  intros Hlive. split; [|split]; [| |intros r Hcount%Z.ltb_lt;
    rewrite (iteration_runs _ _ _ _ _ Hlive);
    unfold turn_connected, turn_calls, handed_to_switch; by rewrite Hcount].
  - intros r data Harrive Hlen.
    pose proof header_index_in_header as Hindex.
    pose proof rawdata_fits_buffer as Hfits.
    assert (is_Some (data !! RAWDATA_HEADER_INDEX)) as [kind Hkind].
    { apply lookup_lt_is_Some. unfold sizeof_RawData in Hlen. lia. }
    assert ((0 <? received_count r) = true) as Hcount.
    { apply Z.ltb_lt. unfold received_count. rewrite Harrive, length_take.
      unfold sizeof_RawData in Hlen. lia. }
    assert (Hframe : handed_to_switch r =
              Some (mkRawData (take RAWDATA_HEADER_SIZE data)
                      (take RAWDATA_BODY_SIZE (drop RAWDATA_HEADER_SIZE data)))).
    { unfold handed_to_switch. rewrite Hcount.
      by rewrite (memcpy_full_frame _ _ Harrive Hlen). }
    assert (Hkind' : kind_of (mkRawData (take RAWDATA_HEADER_SIZE data)
                      (take RAWDATA_BODY_SIZE (drop RAWDATA_HEADER_SIZE data))) = kind).
    { unfold kind_of. simpl. by rewrite lookup_take_lt, Hkind. }
    exists kind. split; [done|]. split; [done|]. split; [done|].
    rewrite (iteration_runs _ _ _ _ _ Hlive).
    unfold turn_connected, turn_calls. rewrite Hframe.
    unfold stays_connected. rewrite Hkind'. do 2 f_equal.
    destruct (decide (kind = DISCONNECT)) as [Heq|Hne].
    + by rewrite bool_decide_eq_false_2 by (intros Hne; by apply Hne).
    + by rewrite bool_decide_eq_true_2.
  - intros r Hcount.
    assert (handed_to_switch r = None) as Hnone.
    { unfold handed_to_switch. by rewrite (proj2 (Z.ltb_ge _ _) Hcount). }
    split; [done|]. rewrite (iteration_runs _ _ _ _ _ Hlive).
    by destruct (failed_receive_turn s (mIntervalTime pr) r Hcount) as [-> ->].
Qed.

Lemma full_frame_is_decoded_verbatim_witness :
  ∃ kind,
    [1; 0; 0; 0; 104; 105; 0; 0; 0; 0; 0; 0; 0; 0; 0; 0; 0; 0; 0; 0; 33]
      !! RAWDATA_HEADER_INDEX (SCIPacket := example_packet) = Some kind
    ∧ handed_to_switch (H := example_packet)
        (mkReceive (λ _, 9)
           (Some [1; 0; 0; 0; 104; 105; 0; 0; 0; 0; 0; 0; 0; 0; 0; 0; 0; 0; 0; 0; 33])) =
        Some (mkRawData [1; 0; 0; 0] [104; 105; 0; 0; 0; 0; 0; 0; 0; 0; 0; 0; 0; 0; 0; 0]).
Proof.
  destruct (full_frame_is_decoded_verbatim (H := example_packet) 1%positive 7
              listening_world (mkProcess (Some 1%positive) 1000) eq_refl)
    as (Hfull & _).
  destruct (Hfull
              (mkReceive (λ _, 9)
                 (Some [1; 0; 0; 0; 104; 105; 0; 0; 0; 0; 0; 0; 0; 0; 0; 0; 0; 0; 0; 0; 33]))
              [1; 0; 0; 0; 104; 105; 0; 0; 0; 0; 0; 0; 0; 0; 0; 0; 0; 0; 0; 0; 33]
              eq_refl ltac:(vm_compute; lia))
    as (kind & Hkind & Hframe & _).
  exists kind. split; assumption.
Defined.

(** C5. After an [accept] that succeeded, with the new thread joinable,
    the unit that accepted starts exactly one thread, which runs [Proc]
    on a fresh [Process] appended to the registry, and everything it does
    from then on is serving the connection it just accepted, beginning
    with the first probe of the receive loop: no further thread, no
    further [accept], no call on another socket. *)
Theorem Proc_spawns_one_acceptor_then_serves `{SCIPacket} process env w pr :
  accept_result env ≠ INVALID_SOCKET →
  next_joinable env = true →
  processes w !! process = Some pr →
  ∃ outcome w' served,
    Proc process env w = Some (outcome, w')
    ∧ trace w' =
        trace w ++ [EvLog LogWaitConnection;
                    EvAccept (mSocket w) (accept_result env);
                    EvLog LogConnectionAccepted; EvLog LogHello;
                    EvThreadStart (fresh (dom (processes w)))]
        ++ served
    ∧ Forall (λ e, on_connection (accept_result env) e) served
    ∧ (receives env ≠ [] →
       ∃ rest, served = EvSend (accept_result env) DISCONNECT :: rest)
    ∧ mProcessList w' =
        match outcome with
        | Serving => mProcessList w ++ [fresh (dom (processes w))]
        | Returned => erase_first process (mProcessList w ++ [fresh (dom (processes w))])
        end
    ∧ processes w' !! fresh (dom (processes w)) =
        Some (mkProcess (Some (fresh (dom (threads w)))) INTERVAL_OF_TIME_MILLISECONDS)
    ∧ threads w' !! fresh (dom (threads w)) =
        Some (mkThread (fresh (dom (processes w))) false).
Proof.
  intros Haccept Hjoin Hlive.
  destruct (Proc_after_spawn process env w pr Hjoin Hlive)
    as (w1 & Hspawn & Hlive1 & Hreg & Htrace & Hproc & Hthread).
  rewrite Proc_unfold, Hspawn, (receive_loop_runs _ _ _ _ _ Hlive1).
  assert (Hhead : receives env ≠ [] →
    ∀ tail, ∃ rest,
      concat (turn_calls (accept_result env) (mIntervalTime pr) <$> executed (receives env))
        ++ tail = EvSend (accept_result env) DISCONNECT :: rest).
  { intros Hne tail. destruct (receives env) as [|r rs]; [done|].
    destruct (turn_calls_head (accept_result env) (mIntervalTime pr) r) as [rest Hrest].
    cbn [executed fmap list_fmap concat]. rewrite Hrest. simpl. eauto. }
  destruct (still_connected (receives env)).
  - eexists Serving, _, _. split; [done|]. simpl.
    split; [by rewrite Htrace, <- app_assoc|].
    split; [apply loop_calls_on_connection|].
    split; [|done].
    intros Hne. destruct (Hhead Hne []) as [rest Hrest].
    rewrite app_nil_r in Hrest. eauto.
  - rewrite close_connection_runs.
    eexists Returned, _,
      (concat (turn_calls (accept_result env) (mIntervalTime pr) <$> executed (receives env))
       ++ [EvCloseSocket (accept_result env); EvLog LogDisconnectedClient]).
    split; [done|]. simpl.
    split; [by rewrite Htrace, <- !app_assoc|].
    split.
    { apply Forall_app. split; [apply loop_calls_on_connection|].
      repeat constructor; simpl. by rewrite bool_decide_eq_true_2. }
    split; [by auto|]. by rewrite Hreg.
Qed.

Lemma Proc_spawns_one_acceptor_then_serves_witness :
  ∃ outcome w',
    Proc (H := example_packet) 1%positive
      (mkProcEnv 7 true [delivers [1; 0; 0; 0; 104; 105]]) listening_world =
      Some (outcome, w')
    ∧ processes w' !! 2%positive = Some (mkProcess (Some 2%positive) 1000).
Proof.
  destruct (Proc_spawns_one_acceptor_then_serves (H := example_packet) 1%positive
              (mkProcEnv 7 true [delivers [1; 0; 0; 0; 104; 105]]) listening_world
              (mkProcess (Some 1%positive) 1000)
              ltac:(discriminate) eq_refl eq_refl)
    as (outcome & w' & served & Hrun & _ & _ & _ & _ & Hproc & _).
  exists outcome, w'. split; assumption.
Defined.

(** C6, on the code. When [accept] fails, [Proc] goes on as if it had
    succeeded: it logs the acceptance, starts the next acceptor and
    registers it, and enters the receive loop on the invalid socket, where
    every receive fails and every turn is probe, receive, sleep; it is
    still in that loop when the receives run out. *)
Theorem Proc_ignores_accept_failure `{SCIPacket} process env w pr :
  accept_result env = INVALID_SOCKET →
  next_joinable env = true →
  processes w !! process = Some pr →
  Forall (λ r, arriving r = None) (receives env) →
  ∃ w',
    Proc process env w = Some (Serving, w')
    ∧ mProcessList w' = mProcessList w ++ [fresh (dom (processes w))]
    ∧ trace w' =
        trace w ++ [EvLog LogWaitConnection;
                    EvAccept (mSocket w) INVALID_SOCKET;
                    EvLog LogConnectionAccepted; EvLog LogHello;
                    EvThreadStart (fresh (dom (processes w)))]
        ++ concat (replicate (length (receives env))
                     [EvSend INVALID_SOCKET DISCONNECT;
                      EvRecv INVALID_SOCKET (-1);
                      EvSleep (mIntervalTime pr)]).
Proof.
  intros Haccept Hjoin Hlive Hfail.
  destruct (Proc_after_spawn process env w pr Hjoin Hlive)
    as (w1 & Hspawn & Hlive1 & Hreg & Htrace & _).
  rewrite Proc_unfold, Hspawn, (receive_loop_runs _ _ _ _ _ Hlive1).
  rewrite Haccept in *.
  assert (Hloop : still_connected (receives env) = true
    ∧ concat (turn_calls INVALID_SOCKET (mIntervalTime pr) <$> executed (receives env)) =
      concat (replicate (length (receives env))
                [EvSend INVALID_SOCKET DISCONNECT; EvRecv INVALID_SOCKET (-1);
                 EvSleep (mIntervalTime pr)])).
  { induction Hfail as [|r rs Hr _ [IHc IHt]]; [done|].
    assert (received_count r = -1) as Hcount.
    { unfold received_count. by rewrite Hr. }
    destruct (failed_receive_turn INVALID_SOCKET (mIntervalTime pr) r) as [Hc Ht];
      [lia|].
    unfold still_connected in *. cbn [forallb executed]. rewrite Hc.
    split; [done|].
    cbn [fmap list_fmap concat length replicate].
    by rewrite Ht, Hcount, IHt. }
  destruct Hloop as [-> ->].
  eexists. split; [done|]. simpl. split; [done|].
  by rewrite Htrace, <- app_assoc.
Qed.

Lemma Proc_ignores_accept_failure_witness :
  ∃ w',
    Proc (H := example_packet) 1%positive
      (mkProcEnv INVALID_SOCKET true
         [mkReceive (λ _, 0) None; mkReceive (λ _, 0) None]) listening_world =
      Some (Serving, w')
    ∧ mProcessList w' = [1%positive; 2%positive].
Proof.
  destruct (Proc_ignores_accept_failure (H := example_packet) 1%positive
              (mkProcEnv INVALID_SOCKET true
                 [mkReceive (λ _, 0) None; mkReceive (λ _, 0) None])
              listening_world (mkProcess (Some 1%positive) 1000)
              eq_refl eq_refl eq_refl ltac:(repeat constructor))
    as (w' & Hrun & Hreg & _).
  exists w'. split; assumption.
Defined.

(** C3, on the code. [End] on a server whose [mSocket] is invalid returns
    [false] and does nothing.  On a listening server it sends one
    DISCONNECT frame on the listening socket and closes it, deletes every
    registered [Process] with its thread object, empties the registry and
    returns [true], with no call on any other socket.  But it keeps the
    closed handle in [mSocket]: a second [End], with no listening endpoint
    open, sends on the closed handle, closes it again and returns [true]. *)
Theorem End_keeps_closed_handle `{SCIPacket} w :
  (mSocket w = INVALID_SOCKET → End w = Some (false, w))
  ∧ (registry_owned w →
     mSocket w ≠ INVALID_SOCKET →
     ∃ w1 w2,
       End w = Some (true, w1)
       ∧ trace w1 = trace w ++ [EvSend (mSocket w) DISCONNECT; EvCloseSocket (mSocket w)]
       ∧ mProcessList w1 = []
       ∧ (∀ p, p ∈ mProcessList w → processes w1 !! p = None)
       ∧ (∀ p pr t, p ∈ mProcessList w → processes w !! p = Some pr →
                    mThread pr = Some t → threads w1 !! t = None)
       ∧ (mSocket w ∉ open_sockets w1)
       ∧ mSocket w1 = mSocket w
       ∧ End w1 = Some (true, w2)
       ∧ trace w2 = trace w1 ++ [EvSend (mSocket w) DISCONNECT; EvCloseSocket (mSocket w)]).
Proof.
  unfold End. split; [apply Disconnect_invalid|]. intros Howned Hs.
  destruct (Disconnect_valid w Howned Hs)
    as (w1 & Hrun1 & Hs1 & Hreg1 & Hopen1 & Htrace1 & Hgone & _ & Hthreads).
  destruct (Disconnect_valid w1) as (w2 & Hrun2 & _ & _ & _ & Htrace2 & _).
  { unfold registry_owned. rewrite Hreg1. constructor. }
  { by rewrite Hs1. }
  exists w1, w2. split; [done|]. split; [done|]. split; [done|].
  split; [done|]. split; [done|]. split.
  { rewrite Hopen1, elem_of_difference, elem_of_singleton. tauto. }
  split; [done|]. split; [done|]. by rewrite Htrace2, Hs1.
Qed.

Lemma End_keeps_closed_handle_witness :
  ∃ w1 w2,
    End (H := example_packet) listening_world = Some (true, w1)
    ∧ (5 ∉ open_sockets w1)
    ∧ End (H := example_packet) w1 = Some (true, w2).
Proof.
  destruct (End_keeps_closed_handle (H := example_packet) listening_world)
    as [_ Hopen].
  destruct Hopen
    as (w1 & w2 & Hrun1 & _ & _ & _ & _ & Hclosed & _ & Hrun2 & _).
  - eapply owned_cons; [reflexivity|reflexivity|reflexivity|constructor].
  - discriminate.
  - exists w1, w2. split; [assumption|]. split; assumption.
Defined.

(** * Further properties *)

(** ** The registry invariant *)

Lemma owned_weaken l :
  ∀ hp ht hp' ht',
    owned l hp ht → hp ⊆ hp' → ht ⊆ ht' → owned l hp' ht'.
Proof.
  induction l as [|p l IH]; intros hp ht hp' ht' Howned Hhp Hht.
  - constructor.
  - inversion Howned as [|p' pr t th l' hp0 ht0 Hp Ht Hth Hrest]; subst.
    eapply owned_cons; [by eapply lookup_weaken|done|by eapply lookup_weaken|].
    eapply IH; [exact Hrest|by apply delete_mono..].
Qed.

Lemma owned_NoDup l hp ht : owned l hp ht → NoDup l.
Proof.
  induction 1 as [|p pr t th l hp ht Hp Ht Hth Hrest IH]; [constructor|].
  apply NoDup_cons. split; [|done].
  intros Hin. destruct (owned_live _ _ _ _ Hrest Hin) as [x Hx].
  by rewrite lookup_delete_eq in Hx.
Qed.

Lemma owned_erase_first process l :
  ∀ hp ht, owned l hp ht → owned (erase_first process l) hp ht.
Proof.
  induction l as [|p l IH]; intros hp ht Howned; simpl; [done|].
  inversion Howned as [|p' pr t th l' hp0 ht0 Hp Ht Hth Hrest]; subst.
  case_decide.
  - eapply owned_weaken; [exact Hrest|apply delete_subseteq..].
  - eapply owned_cons; [done..|]. by apply IH.
Qed.

Lemma erase_first_snoc process l p :
  process ∈ l → erase_first process (l ++ [p]) = erase_first process l ++ [p].
Proof.
  induction l as [|q l IH]; intros Hin; simpl.
  - by apply elem_of_nil in Hin.
  - case_decide; [done|].
    apply elem_of_cons in Hin as [->|Hin]; [done|]. by rewrite IH.
Qed.

Lemma erase_first_length process l :
  process ∈ l → S (length (erase_first process l)) = length l.
Proof.
  induction l as [|q l IH]; intros Hin; simpl.
  - by apply elem_of_nil in Hin.
  - case_decide; [done|].
    apply elem_of_cons in Hin as [->|Hin]; [done|]. simpl. by rewrite IH.
Qed.

Lemma erase_first_NoDup_absent process l :
  NoDup l → process ∉ erase_first process l.
Proof.
  induction 1 as [|q l Hq Hl IH]; simpl; [apply not_elem_of_nil|].
  case_decide; [by subst|].
  apply not_elem_of_cons. by split.
Qed.

Lemma erase_first_subset process l p :
  p ∈ erase_first process l → p ∈ l.
Proof.
  induction l as [|q l IH]; simpl; [done|].
  case_decide; rewrite !elem_of_cons; [by right|].
  intros [->|Hin]; [by left|right; by apply IH].
Qed.

(** What a call of [createNewProcess] does in either case. *)
Lemma createNewProcess_any joinable w :
  ∃ w1,
    createNewProcess joinable w = Some (joinable, w1)
    ∧ mSocket w1 = mSocket w
    ∧ open_sockets w1 = open_sockets w
    ∧ mProcessList w1 =
        (if joinable then mProcessList w ++ [fresh (dom (processes w))]
         else mProcessList w)
    ∧ trace w1 =
        trace w ++ (if joinable then [EvThreadStart (fresh (dom (processes w)))]
                    else [])
    ∧ (∀ p pr, processes w !! p = Some pr → processes w1 !! p = Some pr)
    ∧ (∀ t th, threads w !! t = Some th → threads w1 !! t = Some th)
    ∧ (registry_owned w → registry_owned w1)
    ∧ (default_intervals w → default_intervals w1).
Proof.
  destruct joinable.
  - eexists. split; [apply createNewProcess_joinable|]. simpl.
    assert (Hp : processes w !! fresh (dom (processes w)) = None)
      by apply not_elem_of_dom, is_fresh.
    assert (Ht : threads w !! fresh (dom (threads w)) = None)
      by apply not_elem_of_dom, is_fresh.
    repeat (split; [done|]).
    split; [|split; [|split]].
    + intros p pr Hlive. rewrite lookup_insert_ne; [done|]. congruence.
    + intros t th Hlive. rewrite lookup_insert_ne; [done|]. congruence.
    + unfold registry_owned. simpl. intros Howned. by apply owned_snoc.
    + unfold default_intervals. simpl. intros Hint p pr.
      rewrite lookup_insert. case_decide; [by intros [= <-]|apply Hint].
  - exists w. split; [apply createNewProcess_not_joinable|].
    rewrite app_nil_r. by repeat split.
Qed.

(** [Proc] from start to end, for a unit whose own [Process] is alive. *)
Lemma Proc_runs `{SCIPacket} process env w pr :
  processes w !! process = Some pr →
  ∃ w1,
    createNewProcess (next_joinable env) (accepted (accept_result env) w) =
      Some (next_joinable env, w1)
    ∧ processes w1 !! process = Some pr
    ∧ Proc process env w =
        Some (if still_connected (receives env) then Serving else Returned,
              if still_connected (receives env) then
                record (concat (turn_calls (accept_result env) (mIntervalTime pr)
                                  <$> executed (receives env))) w1
              else
                mkWorld (mSocket w1) (erase_first process (mProcessList w1))
                  (processes w1) (threads w1)
                  (open_sockets w1 ∖ {[accept_result env]})
                  (trace w1
                   ++ concat (turn_calls (accept_result env) (mIntervalTime pr)
                                <$> executed (receives env))
                   ++ [EvCloseSocket (accept_result env);
                       EvLog LogDisconnectedClient])).
Proof.
  intros Hlive.
  destruct (createNewProcess_any (next_joinable env) (accepted (accept_result env) w))
    as (w1 & Hspawn & _ & _ & _ & _ & Hkept & _).
  exists w1. split; [done|].
  assert (Hlive1 : processes w1 !! process = Some pr) by by apply Hkept.
  split; [done|].
  rewrite Proc_unfold, Hspawn, (receive_loop_runs _ _ _ _ _ Hlive1).
  destruct (still_connected (receives env)); [done|].
  rewrite close_connection_runs. simpl. by rewrite <- app_assoc.
Qed.

(** X1. However many acceptors a fresh server spawns, the registry holds
    that many handles, no handle twice, and every handle is a live
    [Process] with the default interval whose thread object is alive,
    was started on that very [Process] and has been detached. *)
Theorem spawned_handles_are_distinct_and_live n :
  ∃ w',
    spawn n Impl = Some (tt, w')
    ∧ length (mProcessList w') = n
    ∧ NoDup (mProcessList w')
    ∧ (∀ p, p ∈ mProcessList w' →
         ∃ pr t th,
           processes w' !! p = Some pr
           ∧ mThread pr = Some t
           ∧ mIntervalTime pr = 1000
           ∧ threads w' !! t = Some th
           ∧ thread_arg th = p
           ∧ thread_joinable th = false).
Proof.
  assert (Hgen : ∀ n w,
    registry_owned w →
    (∀ p, p ∈ mProcessList w →
       ∃ pr t th,
         processes w !! p = Some pr ∧ mThread pr = Some t
         ∧ mIntervalTime pr = 1000 ∧ threads w !! t = Some th
         ∧ thread_arg th = p ∧ thread_joinable th = false) →
    ∃ w',
      spawn n w = Some (tt, w')
      ∧ length (mProcessList w') = (length (mProcessList w) + n)%nat
      ∧ registry_owned w'
      ∧ (∀ p, p ∈ mProcessList w' →
           ∃ pr t th,
             processes w' !! p = Some pr ∧ mThread pr = Some t
             ∧ mIntervalTime pr = 1000 ∧ threads w' !! t = Some th
             ∧ thread_arg th = p ∧ thread_joinable th = false)).
  { clear n. induction n as [|n IH]; intros w Howned Hhandles; simpl.
    - exists w. split; [done|]. split; [lia|]. by split.
    - destruct (createNewProcess_any true w)
        as (w1 & Hrun & _ & _ & Hreg & _ & Hprocs & Hthreads & Hkeep & _).
      destruct (IH w1) as (w' & Hrest & Hlen & Howned' & Hhandles').
      + by apply Hkeep.
      + intros p. rewrite Hreg, elem_of_app, list_elem_of_singleton.
        intros [Hin| ->].
        * destruct (Hhandles p Hin) as (pr & t & th & Hp & Ht & Hi & Hth & Ha & Hj).
          exists pr, t, th. split; [by apply Hprocs|]. split; [done|].
          split; [done|]. split; [by apply Hthreads|]. done.
        * rewrite createNewProcess_joinable in Hrun.
          injection Hrun as <-. simpl.
          eexists _, _, _. split; [apply lookup_insert_eq|]. split; [done|].
          split; [done|]. split; [apply lookup_insert_eq|]. done.
      + exists w'. split; [by rewrite (and_then_Some _ _ _ _ _ Hrun)|].
        split; [|done]. rewrite Hlen, Hreg, length_app. simpl. lia. }
  destruct (Hgen n Impl) as (w' & Hrun & Hlen & Howned & Hhandles).
  - constructor.
  - intros p Hin. by apply elem_of_nil in Hin.
  - exists w'. split; [done|]. split; [done|].
    split; [by eapply owned_NoDup|done].
Qed.

(** X2. A unit whose own [Process] is alive runs [Proc] without touching
    a dead object, whatever it receives, and leaves the registry as sound
    as it found it: no handle twice, every handle a live [Process] with a
    live thread of its own.  Its own [Process] is still alive afterwards
    and [mSocket] is unchanged. *)
Theorem Proc_keeps_registry_sound `{SCIPacket} process env w pr :
  registry_owned w →
  processes w !! process = Some pr →
  ∃ outcome w',
    Proc process env w = Some (outcome, w')
    ∧ registry_owned w'
    ∧ NoDup (mProcessList w')
    ∧ (∀ p, p ∈ mProcessList w' → is_Some (processes w' !! p))
    ∧ processes w' !! process = Some pr
    ∧ mSocket w' = mSocket w.
Proof.
  intros Howned Hlive.
  destruct (Proc_runs process env w pr Hlive) as (w1 & Hspawn & Hlive1 & Hrun).
  destruct (createNewProcess_any (next_joinable env) (accepted (accept_result env) w))
    as (w1' & Hspawn' & Hsock & _ & _ & _ & _ & _ & Hkeep & _).
  assert (w1' = w1) as -> by congruence.
  assert (Howned1 : registry_owned w1) by by apply Hkeep.
  eexists _, _. split; [exact Hrun|].
  assert (Hsound : ∀ w0, registry_owned w0 →
            NoDup (mProcessList w0)
            ∧ (∀ p, p ∈ mProcessList w0 → is_Some (processes w0 !! p))).
  { intros w0 Hw0. split; [by eapply owned_NoDup|].
    intros p Hin. by eapply owned_live. }
  destruct (still_connected (receives env)).
  - assert (registry_owned (record (concat (turn_calls (accept_result env)
              (mIntervalTime pr) <$> executed (receives env))) w1)) as Hfinal
      by done.
    split; [done|]. destruct (Hsound _ Hfinal). by repeat split.
  - match goal with |- registry_owned ?w0 ∧ _ =>
      assert (registry_owned w0) as Hfinal
    end.
    { unfold registry_owned. simpl. by apply owned_erase_first. }
    split; [done|]. destruct (Hsound _ Hfinal). by repeat split.
Qed.

Lemma Proc_keeps_registry_sound_witness :
  ∃ outcome w',
    Proc (H := example_packet) 1%positive
      (mkProcEnv 7 true [delivers [1; 0; 0; 0]; delivers [0; 0; 0; 0]])
      listening_world = Some (outcome, w')
    ∧ NoDup (mProcessList w').
Proof.
  destruct (Proc_keeps_registry_sound (H := example_packet) 1%positive
              (mkProcEnv 7 true [delivers [1; 0; 0; 0]; delivers [0; 0; 0; 0]])
              listening_world (mkProcess (Some 1%positive) 1000))
    as (outcome & w' & Hrun & _ & Hnodup & _).
  - eapply owned_cons; [reflexivity|reflexivity|reflexivity|constructor].
  - reflexivity.
  - exists outcome, w'. split; assumption.
Defined.

(** X3. A registered worker that accepted, spawned its successor and ran
    to its end has replaced itself by that successor: its own handle is
    gone from the registry, the successor's is there at the end, every
    other handle is where it was, and the registry is as long as before. *)
Theorem finished_worker_swaps_itself_for_successor `{SCIPacket} process env w w' :
  registry_owned w →
  process ∈ mProcessList w →
  next_joinable env = true →
  Proc process env w = Some (Returned, w') →
  mProcessList w' =
    erase_first process (mProcessList w) ++ [fresh (dom (processes w))]
  ∧ (process ∉ mProcessList w')
  ∧ fresh (dom (processes w)) ∈ mProcessList w'
  ∧ length (mProcessList w') = length (mProcessList w).
Proof.
  intros Howned Hin Hjoin Hreturned.
  destruct (owned_live _ _ _ _ Howned Hin) as [pr Hlive].
  destruct (Proc_runs process env w pr Hlive) as (w1 & Hspawn & _ & Hrun).
  rewrite Hjoin, createNewProcess_joinable in Hspawn.
  injection Hspawn as <-. simpl in Hrun. rewrite Hrun in Hreturned.
  destruct (still_connected (receives env)); [done|].
  injection Hreturned as <-. simpl.
  assert (Hreg : erase_first process (mProcessList w ++ [fresh (dom (processes w))]) =
                 erase_first process (mProcessList w) ++ [fresh (dom (processes w))])
    by by apply erase_first_snoc.
  rewrite Hreg. split; [done|]. split; [|split].
  - rewrite elem_of_app, list_elem_of_singleton. intros [Hold| ->].
    + by eapply erase_first_NoDup_absent; [eapply owned_NoDup|].
    + apply (is_fresh (dom (processes w))). by apply elem_of_dom.
  - rewrite elem_of_app, list_elem_of_singleton. by right.
  - rewrite length_app. simpl.
    pose proof (erase_first_length process (mProcessList w) Hin). lia.
Qed.

Lemma finished_worker_swaps_itself_for_successor_witness :
  ∃ w',
    Proc (H := example_packet) 1%positive
      (mkProcEnv 7 true [delivers [0; 0; 0; 0]]) listening_world = Some (Returned, w')
    ∧ mProcessList w' = [2%positive].
Proof.
  eexists. split; [vm_compute; reflexivity|].
  refine (proj1 (finished_worker_swaps_itself_for_successor (H := example_packet)
                   1%positive (mkProcEnv 7 true [delivers [0; 0; 0; 0]])
                   listening_world _ _ _ eq_refl _)).
  - eapply owned_cons; [reflexivity|reflexivity|reflexivity|constructor].
  - apply list_elem_of_singleton. reflexivity.
  - vm_compute. reflexivity.
Defined.

(** X4. The [Process] of a worker that has returned is never deleted:
    [Proc] only takes it out of the registry, and a later [End], which
    succeeds, deletes registered handles only. *)
Theorem returned_worker_is_never_released `{SCIPacket} process env w w' pr :
  registry_owned w →
  processes w !! process = Some pr →
  mSocket w ≠ INVALID_SOCKET →
  Proc process env w = Some (Returned, w') →
  (process ∉ mProcessList w')
  ∧ processes w' !! process = Some pr
  ∧ ∃ w2,
      End w' = Some (true, w2)
      ∧ mProcessList w2 = []
      ∧ processes w2 !! process = Some pr.
Proof.
  intros Howned Hlive Hsock Hreturned.
  destruct (Proc_runs process env w pr Hlive) as (w1 & Hspawn & Hlive1 & Hrun).
  destruct (createNewProcess_any (next_joinable env) (accepted (accept_result env) w))
    as (w1' & Hspawn' & Hsock1 & _ & _ & _ & _ & _ & Hkeep & _).
  assert (w1' = w1) as -> by congruence.
  assert (Howned1 : registry_owned w1) by by apply Hkeep.
  rewrite Hrun in Hreturned.
  destruct (still_connected (receives env)); [done|].
  injection Hreturned as <-.
  assert (Habsent : process ∉ erase_first process (mProcessList w1)).
  { apply erase_first_NoDup_absent. by eapply owned_NoDup. }
  split; [done|]. split; [done|].
  edestruct Disconnect_valid as (w2 & Hend & _ & Hreg & _ & _ & _ & Hkept & _);
    last first.
  - exists w2. split; [exact Hend|]. split; [done|].
    by rewrite Hkept.
  - simpl. by rewrite Hsock1.
  - unfold registry_owned. simpl. by apply owned_erase_first.
Qed.

Lemma returned_worker_is_never_released_witness :
  ∃ w' w2,
    Proc (H := example_packet) 1%positive
      (mkProcEnv 7 true [delivers [0; 0; 0; 0]]) listening_world = Some (Returned, w')
    ∧ End (H := example_packet) w' = Some (true, w2)
    ∧ processes w2 !! 1%positive = Some (mkProcess (Some 1%positive) 1000).
Proof.
  eexists.
  edestruct (returned_worker_is_never_released (H := example_packet) 1%positive
               (mkProcEnv 7 true [delivers [0; 0; 0; 0]]) listening_world)
    as (_ & _ & w2 & Hend & _ & Hleak).
  - eapply owned_cons; [reflexivity|reflexivity|reflexivity|constructor].
  - reflexivity.
  - discriminate.
  - vm_compute. reflexivity.
  - exists w2. split; [vm_compute; reflexivity|]. split; [exact Hend|exact Hleak].
Defined.

(** X5. [End] deletes the [Process] of every registered worker without
    stopping the worker: the next turn of the loop of any worker that was
    registered reads the interval through a dangling pointer. *)
Theorem worker_after_End_uses_deleted_Process `{SCIPacket} process w :
  registry_owned w →
  mSocket w ≠ INVALID_SOCKET →
  process ∈ mProcessList w →
  ∃ w1,
    End w = Some (true, w1)
    ∧ processes w1 !! process = None
    ∧ ∀ s r receives, receive_loop process s (r :: receives) w1 = None.
Proof.
  intros Howned Hsock Hin.
  destruct (Disconnect_valid w Howned Hsock)
    as (w1 & Hend & _ & _ & _ & _ & Hgone & _).
  exists w1. split; [done|]. split; [by apply Hgone|].
  intros s r receives. simpl. unfold and_then.
  by rewrite iteration_dangling by by apply Hgone.
Qed.

Lemma worker_after_End_uses_deleted_Process_witness :
  ∃ w1,
    End (H := example_packet) listening_world = Some (true, w1)
    ∧ receive_loop (H := example_packet) 1%positive 7 [delivers [1; 0; 0; 0]] w1 = None.
Proof.
  destruct (worker_after_End_uses_deleted_Process (H := example_packet)
              1%positive listening_world)
    as (w1 & Hend & _ & Hloop).
  - eapply owned_cons; [reflexivity|reflexivity|reflexivity|constructor].
  - discriminate.
  - apply list_elem_of_singleton. reflexivity.
  - exists w1. split; [exact Hend|apply Hloop].
Defined.



(** ** Start and End together *)

Lemma wait_for_threads_frame others fuel :
  ∀ k w finished w',
    wait_for_threads others k fuel w = Some (finished, w') →
    mSocket w' = mSocket w
    ∧ open_sockets w' = open_sockets w
    ∧ processes w' = processes w
    ∧ threads w' = threads w.
Proof.
  induction fuel as [|fuel IH]; intros k w finished w'; simpl.
  - by intros [= _ <-].
  - run_calls. destruct (mProcessList w) as [|p l]; simpl.
    + by intros [= _ <-].
    + intros Hrest. by destruct (IH _ _ _ _ Hrest) as (-> & -> & -> & ->).
Qed.

(** A [Connect] whose setup succeeded, as far as it got. *)
Lemma Connect_listening port address env fuel w result w' :
  setup_succeeds env = true →
  Connect port address env fuel w = Some (result, w') →
  socket_result env ≠ INVALID_SOCKET
  ∧ mSocket w' = socket_result env
  ∧ open_sockets w' = {[socket_result env]} ∪ open_sockets w
  ∧ (result = Some true → mProcessList w' = []).
Proof.
  intros Hsetup. rewrite (Connect_setup_ok _ _ _ _ _ Hsetup).
  destruct (createNewProcess_any (first_joinable env) (listening port address env w))
    as (w1 & -> & Hsock & Hopen & _).
  destruct (wait_for_threads _ _ _ _) as [[finished w2]|] eqn:Hwait; [|done].
  intros [= <- <-].
  destruct (wait_for_threads_frame _ _ _ _ _ _ Hwait) as (-> & -> & _).
  split.
  { unfold setup_succeeds in Hsetup.
    apply andb_prop in Hsetup as [[Hs%negb_true_iff _]%andb_prop _].
    by apply bool_decide_eq_false in Hs. }
  split; [done|]. split; [done|].
  destruct finished; [|done]. intros _.
  by eapply wait_for_threads_left_empty.
Qed.



(** X8. When the setup of [Start] has failed, a following [End] has
    nothing to stop: it returns [false] without a single call. *)
Theorem End_after_failed_Start_returns_false
    `{SCIPacket} port address env fuel w :
  setup_succeeds env = false →
  ∃ w',
    Start port address env fuel w = Some (Some false, w')
    ∧ End w' = Some (false, w').
Proof.
  intros Hfail. unfold Start, End.
  rewrite (Connect_setup_fails _ _ _ _ _ Hfail).
  eexists. split; [done|]. by apply Disconnect_invalid.
Qed.

Lemma End_after_failed_Start_returns_false_witness :
  ∃ w',
    Start 5000 "127.0.0.1" (mkConnectEnv INVALID_SOCKET 0 0 true (λ _ l, l)) 0 Impl =
      Some (Some false, w')
    ∧ End (H := example_packet) w' = Some (false, w').
Proof.
  exact (End_after_failed_Start_returns_false (H := example_packet)
           5000 "127.0.0.1" (mkConnectEnv INVALID_SOCKET 0 0 true (λ _ l, l))
           0%nat Impl eq_refl).
Defined.

(** X9. [Start] never closes the socket [mSocket] held before: called on
    a server that is already listening, it makes no [closesocket] call on
    the old socket, which stays open, and [mSocket] no longer names it. *)
Theorem second_Start_leaves_first_socket_open
    port address env fuel w result w' :
  mSocket w ≠ INVALID_SOCKET →
  mSocket w ∈ open_sockets w →
  socket_result env ≠ mSocket w →
  Start port address env fuel w = Some (result, w') →
  mSocket w ∈ open_sockets w'
  ∧ mSocket w' ≠ mSocket w
  ∧ (∀ e, e ∈ drop (length (trace w)) (trace w') → e ≠ EvCloseSocket (mSocket w)).
Proof.
  intros Hvalid Hopen Hother. unfold Start.
  destruct (setup_succeeds env) eqn:Hsetup.
  - intros Hstart.
    destruct (Connect_listening _ _ _ _ _ _ _ Hsetup Hstart)
      as (_ & Hsock & Hopen' & _).
    split; [rewrite Hopen', elem_of_union; by right|].
    split; [by rewrite Hsock|].
    revert Hstart. rewrite (Connect_setup_ok _ _ _ _ _ Hsetup).
    destruct (createNewProcess_any (first_joinable env) (listening port address env w))
      as (w1 & -> & _ & _ & _ & Htrace1 & _).
    destruct (wait_for_threads _ _ _ _) as [[finished w2]|] eqn:Hwait; [|done].
    intros [= _ <-].
    assert (Hsleeps : ∃ n, trace w2 = trace w1 ++ replicate n (EvSleep 1000)).
    { clear -Hwait. revert Hwait. generalize 0%nat as k. revert w1.
      induction fuel as [|fuel IH]; intros w1 k; simpl.
      - intros [= _ <-]. exists 0%nat. by rewrite app_nil_r.
      - run_calls. destruct (mProcessList w1) as [|p l]; simpl.
        + intros [= _ <-]. exists 0%nat. by rewrite app_nil_r.
        + intros Hrest. destruct (IH _ _ Hrest) as [n Hn]. simpl in Hn.
          exists (S n). rewrite Hn. by rewrite <- app_assoc. }
    destruct Hsleeps as [n Hn]. rewrite Hn, Htrace1. simpl.
    rewrite <- !app_assoc, drop_app_length.
    intros e Hin Heq. subst e. unfold setup_calls in Hin.
    apply elem_of_app in Hin as [Hin|Hin]; [absent_from_calls Hin|].
    apply elem_of_app in Hin as [Hin|Hin].
    + destruct (first_joinable env); absent_from_calls Hin.
    + apply elem_of_replicate in Hin as [Hin _]. discriminate.
  - rewrite (Connect_setup_fails _ _ _ _ _ Hsetup). intros [= _ <-]. simpl.
    split.
    { destruct (decide (socket_result env = INVALID_SOCKET)); [done|].
      rewrite elem_of_difference, elem_of_union, elem_of_singleton.
      split; [by right|]. congruence. }
    split; [congruence|].
    rewrite drop_app_length. intros e Hin Heq. subst e.
    unfold failure_calls in Hin.
    destruct (decide _); [absent_from_calls Hin|].
    destruct (negb _);
      repeat (apply elem_of_cons in Hin as [Hin|Hin]; [congruence|]);
      by apply elem_of_nil in Hin.
Qed.

Lemma second_Start_leaves_first_socket_open_witness :
  ∃ result w',
    Start 5000 "127.0.0.1" (mkConnectEnv 6 0 0 true (λ _ _, [])) 2 listening_world =
      Some (result, w')
    ∧ 5 ∈ open_sockets w'.
Proof.
  eexists _, _. split; [vm_compute; reflexivity|].
  refine (proj1 (second_Start_leaves_first_socket_open 5000 "127.0.0.1"
                   (mkConnectEnv 6 0 0 true (λ _ _, [])) 2%nat listening_world
                   _ _ _ _ _ _)).
  - discriminate.
  - vm_compute. reflexivity.
  - discriminate.
  - vm_compute. reflexivity.
Defined.



(** ** The loop and the frame *)

Lemma turn_connected_false `{SCIPacket} r :
  turn_connected r = false ↔ delivers_disconnect r.
Proof.
  unfold turn_connected, handed_to_switch, delivers_disconnect, stays_connected.
  destruct (0 <? received_count r) eqn:Hcount.
  - apply Z.ltb_lt in Hcount. case_decide.
    + by split.
    + split; [done|]. by intros [_ Hkind].
  - apply Z.ltb_ge in Hcount. split; [done|]. intros [Hpos _]. lia.
Qed.

Lemma still_connected_false `{SCIPacket} receives :
  still_connected receives = false ↔ Exists delivers_disconnect receives.
Proof.
  unfold still_connected. induction receives as [|r receives IH]; simpl.
  - split; [done|]. by intros ?%Exists_nil.
  - rewrite Exists_cons, <- IH, <- turn_connected_false.
    destruct (turn_connected r); simpl.
    + split; [by right|]. by intros [Hr|Hrest].
    + split; [by left|done].
Qed.

(** X11. The receive loop of a worker ends only on a turn that received a
    frame whose kind byte is DISCONNECT: it has ended exactly when one of
    the receives delivered such a frame.  Failed and empty receives and
    frames of any other kind never end it.  Nor does the loop touch the
    registry, the sockets or any object. *)
Theorem loop_ends_only_on_DISCONNECT `{SCIPacket} process s receives w pr :
  processes w !! process = Some pr →
  ∃ connected w',
    receive_loop process s receives w = Some (connected, w')
    ∧ (connected = false ↔ Exists delivers_disconnect receives)
    ∧ mSocket w' = mSocket w
    ∧ mProcessList w' = mProcessList w
    ∧ processes w' = processes w
    ∧ threads w' = threads w
    ∧ open_sockets w' = open_sockets w.
Proof.
  intros Hlive. eexists _, _. split; [by apply receive_loop_runs|].
  split; [apply still_connected_false|done].
Qed.

Lemma loop_ends_only_on_DISCONNECT_witness :
  ∃ connected w',
    receive_loop (H := example_packet) 1%positive 7
      [mkReceive (λ _, 0) None; delivers []; delivers [1; 0; 0; 0]]
      listening_world = Some (connected, w')
    ∧ mProcessList w' = [1%positive].
Proof.
  destruct (loop_ends_only_on_DISCONNECT (H := example_packet) 1%positive 7
              [mkReceive (λ _, 0) None; delivers []; delivers [1; 0; 0; 0]]
              listening_world (mkProcess (Some 1%positive) 1000) eq_refl)
    as (connected & w' & Hrun & _ & _ & Hreg & _).
  exists connected, w'. split; assumption.
Defined.

(** X12. The frame a turn dispatches on always has the size of [RawData].
    Its bytes are the bytes that arrived as far as they go and, behind
    them, what the receive buffer held before; so the kind byte of a
    receive too short to reach the header index is a byte of the
    uninitialised buffer. *)
Theorem frame_is_received_bytes_then_buffer `{SCIPacket} r data :
  arriving r = Some data →
  length (frame_bytes (memcpy_RawData (received_buffer r))) = sizeof_RawData
  ∧ (∀ i, (i < sizeof_RawData)%nat →
       frame_bytes (memcpy_RawData (received_buffer r)) !! i =
         Some (match data !! i with
               | Some b => b
               | None => uninitialised r i
               end))
  ∧ kind_of (memcpy_RawData (received_buffer r)) =
      match data !! RAWDATA_HEADER_INDEX with
      | Some b => b
      | None => uninitialised r RAWDATA_HEADER_INDEX
      end.
Proof.
  intros Harrive.
  pose proof header_index_in_header as Hindex.
  pose proof rawdata_fits_buffer as Hfits.
  assert (Hstore : ∀ i, (i < 1024)%nat →
            received_buffer r i =
              match data !! i with Some b => b | None => uninitialised r i end).
  { intros i Hi. unfold received_buffer, store.
    by rewrite Harrive, lookup_take_lt. }
  unfold frame_bytes, memcpy_RawData, kind_of, sizeof_RawData. simpl.
  split; [by rewrite length_app, !length_fmap, !length_seq|].
  split.
  - intros i Hi. rewrite <- fmap_app, <- seq_app, list_lookup_fmap.
    rewrite lookup_seq_lt by done. simpl. f_equal. apply Hstore. lia.
  - rewrite list_lookup_fmap, lookup_seq_lt by done. simpl.
    apply Hstore. lia.
Qed.

Lemma frame_is_received_bytes_then_buffer_witness :
  kind_of (H := example_packet)
    (memcpy_RawData (H := example_packet)
       (received_buffer (mkReceive (λ _, 9) (Some [1; 2])))) = 1
  ∧ frame_bytes
      (memcpy_RawData (H := example_packet)
         (received_buffer (mkReceive (λ _, 9) (Some [1; 2])))) !! 2%nat = Some 9.
Proof.
  destruct (frame_is_received_bytes_then_buffer (H := example_packet)
              (mkReceive (λ _, 9) (Some [1; 2])) [1; 2] eq_refl)
    as (_ & Hbytes & Hkind).
  split; [exact Hkind|]. apply (Hbytes 2%nat). vm_compute. lia.
Defined.

(** ** The Process class *)

(** X13. A [Process] as its constructor leaves it has no thread and the
    interval it was given; [SetThread] sets the thread [GetThread] then
    returns and changes nothing else: the interval is as before, and so
    is every [Process] that existed already. *)
Theorem Process_keeps_interval_and_thread interval thread w :
  ∃ p w1 w2,
    new_Process interval w = Some (p, w1)
    ∧ processes w !! p = None
    ∧ GetThread p w1 = Some (None, w1)
    ∧ GetIntervalTime p w1 = Some (interval, w1)
    ∧ SetThread p thread w1 = Some (tt, w2)
    ∧ GetThread p w2 = Some (Some thread, w2)
    ∧ GetIntervalTime p w2 = Some (interval, w2)
    ∧ (∀ q pr, processes w !! q = Some pr → processes w2 !! q = Some pr)
    ∧ mProcessList w2 = mProcessList w.
Proof.
  assert (Hfresh : processes w !! fresh (dom (processes w)) = None)
    by apply not_elem_of_dom, is_fresh.
  unfold new_Process, GetThread, GetIntervalTime, SetThread. run_calls.
  eexists _, _, _. split; [reflexivity|]. split; [exact Hfresh|].
  repeat (split; [simpl; rewrite ?lookup_insert_eq; reflexivity|]).
  simpl. split; [|done].
  intros q pr Hq. rewrite !lookup_insert_ne by congruence. done.
Qed.

(** ** What End leaves alone *)

(** X14. An [End] that succeeds closes the listening socket and no other:
    every accepted connection is as open as before.  It deletes registered
    handles only, and every call it makes is on the listening socket. *)
Theorem End_leaves_connections_open `{SCIPacket} w :
  registry_owned w →
  mSocket w ≠ INVALID_SOCKET →
  ∃ w1,
    End w = Some (true, w1)
    ∧ (∀ s, s ≠ mSocket w → s ∈ open_sockets w1 ↔ s ∈ open_sockets w)
    ∧ (∀ p, p ∉ mProcessList w → processes w1 !! p = processes w !! p)
    ∧ Forall (λ e, on_connection (mSocket w) e)
             (drop (length (trace w)) (trace w1)).
Proof.
  intros Howned Hsock.
  destruct (Disconnect_valid w Howned Hsock)
    as (w1 & Hend & _ & _ & Hopen & Htrace & _ & Hkept & _).
  exists w1. split; [done|]. split; [|split; [done|]].
  - intros s Hs. rewrite Hopen, elem_of_difference, elem_of_singleton. tauto.
  - rewrite Htrace, drop_app_length.
    repeat constructor; simpl; by rewrite bool_decide_eq_true_2.
Qed.

Lemma End_leaves_connections_open_witness :
  ∃ w1,
    End (H := example_packet)
      (mkWorld 5 [] ∅ ∅ ({[5]} ∪ {[7]}) []) = Some (true, w1)
    ∧ 7 ∈ open_sockets w1.
Proof.
  destruct (End_leaves_connections_open (H := example_packet)
              (mkWorld 5 [] ∅ ∅ ({[5]} ∪ {[7]}) []))
    as (w1 & Hend & Hopen & _).
  - constructor.
  - discriminate.
  - exists w1. split; [exact Hend|]. apply Hopen; [discriminate|].
    vm_compute. reflexivity.
Defined.

(** ** Intervals and the erase loop *)

Lemma turn_calls_sleep `{SCIPacket} s interval r t :
  EvSleep t ∈ turn_calls s interval r → t = interval.
Proof.
  unfold turn_calls, dispatch_calls. intros Hin.
  destruct (handed_to_switch r); repeat case_decide;
    repeat (apply elem_of_cons in Hin as [Hin|Hin]; [congruence|]);
    by apply elem_of_nil in Hin.
Qed.

(** X15. No path changes the interval of a [Process]: when every live
    [Process] has the default interval before [Proc], every one has it
    afterwards, the successor included, and every sleep of the unit lasts
    1000 milliseconds. *)
Theorem Proc_sleeps_default_interval `{SCIPacket} process env w pr :
  default_intervals w →
  processes w !! process = Some pr →
  ∃ outcome w',
    Proc process env w = Some (outcome, w')
    ∧ default_intervals w'
    ∧ (∀ t, EvSleep t ∈ drop (length (trace w)) (trace w') → t = 1000).
Proof.
  intros Hdefault Hlive.
  destruct (Proc_runs process env w pr Hlive) as (w1 & Hspawn & _ & Hrun).
  destruct (createNewProcess_any (next_joinable env) (accepted (accept_result env) w))
    as (w1' & Hspawn' & _ & _ & _ & Htrace1 & _ & _ & _ & Hkeep).
  assert (w1' = w1) as -> by congruence.
  assert (Hdefault1 : default_intervals w1) by by apply Hkeep.
  assert (Hpr : mIntervalTime pr = 1000) by by apply (Hdefault process).
  assert (Hturns : ∀ rs t,
    EvSleep t ∈ concat (turn_calls (accept_result env) (mIntervalTime pr) <$> rs) →
    t = 1000).
  { intros rs t. induction rs as [|r rs IH];
      cbn [fmap list_fmap concat]; intros Hin; [by apply elem_of_nil in Hin|].
    apply elem_of_app in Hin as [Hin|Hin]; [|by apply IH].
    apply turn_calls_sleep in Hin. congruence. }
  eexists _, _. split; [exact Hrun|].
  assert (Hprefix : ∀ t rest,
    (∀ t', EvSleep t' ∈ rest → t' = 1000) →
    EvSleep t ∈ drop (length (trace w)) (trace w1 ++ rest) → t = 1000).
  { intros t rest Hrest. rewrite Htrace1. simpl.
    rewrite <- !app_assoc, drop_app_length. intros Hin.
    apply elem_of_app in Hin as [Hin|Hin]; [absent_from_calls Hin|].
    apply elem_of_app in Hin as [Hin|Hin]; [|by apply Hrest].
    destruct (next_joinable env); absent_from_calls Hin. }
  destruct (still_connected (receives env)).
  - split; [done|]. intros t. simpl. apply Hprefix. intros t'. apply Hturns.
  - split; [done|]. intros t. simpl. apply Hprefix.
    intros t' Hin. apply elem_of_app in Hin as [Hin|Hin]; [by eapply Hturns|].
    absent_from_calls Hin.
Qed.

Lemma Proc_sleeps_default_interval_witness :
  ∃ outcome w',
    Proc (H := example_packet) 1%positive
      (mkProcEnv 7 true [delivers [1; 0; 0; 0]; delivers [0; 0; 0; 0]])
      listening_world = Some (outcome, w')
    ∧ default_intervals w'.
Proof.
  destruct (Proc_sleeps_default_interval (H := example_packet) 1%positive
              (mkProcEnv 7 true [delivers [1; 0; 0; 0]; delivers [0; 0; 0; 0]])
              listening_world (mkProcess (Some 1%positive) 1000))
    as (outcome & w' & Hrun & Hdefault & _).
  - intros p pr. unfold listening_world. simpl.
    rewrite lookup_singleton. case_decide; [|done]. by intros [= <-].
  - reflexivity.
  - exists outcome, w'. split; assumption.
Defined.

(** X16. The erase loop at the end of [Proc] takes out one handle at
    most.  A unit that is not in the registry, as after an [End], leaves
    the registry as it is; a unit that is makes it one shorter; in both
    cases the other handles keep their places in order. *)
Theorem close_connection_erases_at_most_own_handle process sockclient w :
  ∃ w',
    close_connection process sockclient w = Some (tt, w')
    ∧ filter (λ p, p ≠ process) (mProcessList w') =
        filter (λ p, p ≠ process) (mProcessList w)
    ∧ (process ∉ mProcessList w → mProcessList w' = mProcessList w)
    ∧ (process ∈ mProcessList w →
       S (length (mProcessList w')) = length (mProcessList w)).
Proof.
  rewrite close_connection_runs. eexists. split; [done|]. simpl.
  split; [|split; [apply erase_first_absent|apply erase_first_length]].
  induction (mProcessList w) as [|p l IH]; simpl; [done|].
  case_decide as Heq.
  - subst p. by rewrite filter_cons_False by (intros Hne; by apply Hne).
  - by rewrite !filter_cons_True, IH by done.
Qed.
